(** * Verification of the file-sorting scripts

  A shallow embedding of [cleanup/photosorter.py], of the conflict-safe
  move of [cleanup/organize_files.py] and of the content replacement of
  [cleanup/string_replacer.py], followed by the properties their
  specification states about them.

  Layout: Python strings ([PyStr]), [pathlib] paths ([Pathlib]), a
  filesystem with directories, files and permissions ([Fs]), dates and
  [strftime] ([Datetime]), then one module per script. *)

From Stdlib Require Import Ascii String.
From stdpp Require Import gmap strings list fin_maps pretty.

(** ** Python strings *)

Module PyStr.

(** [s[:i]] *)
Fixpoint take (i : nat) (s : string) : string :=
  match i, s with
  | S k, String c s' => String c (take k s')
  | _, _ => ""
  end.

(** [s[i:]] *)
Fixpoint drop (i : nat) (s : string) : string :=
  match i, s with
  | S k, String _ s' => drop k s'
  | _, _ => s
  end.

(** [s.rfind('.')]; [None] stands for Python's [-1]. *)
Fixpoint rfind_dot (s : string) : option nat :=
  match s with
  | EmptyString => None
  | String c s' =>
      match rfind_dot s' with
      | Some i => Some (S i)
      | None => if decide (c = "."%char) then Some 0 else None
      end
  end.

(** [s.startswith(p)] on strings. *)
Fixpoint startswith (p s : string) : bool :=
  match p, s with
  | EmptyString, _ => true
  | String a p', String b s' => bool_decide (a = b) && startswith p' s'
  | String _ _, EmptyString => false
  end.

(** A [str] whose characters are arbitrary code points is a list of them;
    the next functions are [startswith], [in] and [replace] on such
    lists. *)
Section Text.

Context {A : Type} `{EqDecision A}.

Fixpoint prefix_of (p s : list A) : bool :=
  match p, s with
  | [], _ => true
  | a :: p', b :: s' => bool_decide (a = b) && prefix_of p' s'
  | _ :: _, [] => false
  end.

(** [sub in s] *)
Fixpoint contains (sub s : list A) : bool :=
  prefix_of sub s ||
  match s with
  | [] => false
  | _ :: s' => contains sub s'
  end.

(** [s.replace(old, new)] for a non-empty [old]: scan from the left; at a
    match emit [new] and skip the matched characters ([skip] counts the
    ones still to drop), otherwise copy one character. *)
Fixpoint replace_go (old new : list A) (skip : nat) (s : list A) : list A :=
  match s with
  | [] => []
  | c :: s' =>
      match skip with
      | S k => replace_go old new k s'
      | O =>
          if prefix_of old s
          then new ++ replace_go old new (length old - 1) s'
          else c :: replace_go old new 0 s'
      end
  end.

(** With an empty [old] Python inserts [new] before every character and
    at the end. *)
Fixpoint intersperse (new s : list A) : list A :=
  match s with
  | [] => new
  | c :: s' => new ++ c :: intersperse new s'
  end.

Definition replace (old new s : list A) : list A :=
  match old with
  | [] => intersperse new s
  | _ => replace_go old new 0 s
  end.

End Text.

(** [n] copies of the character [0]. *)
Fixpoint zeros (n : nat) : string :=
  match n with
  | O => ""
  | S k => String "0" (zeros k)
  end.

(** [s.zfill(w)] for an unsigned numeral. *)
Definition zfill (w : nat) (s : string) : string :=
  zeros (w - String.length s) +:+ s.

(** [str(n)] for a non-negative [int]. *)
Definition str_of_N (n : N) : string := pretty n.

Definition str_of_nat (n : nat) : string := str_of_N (N.of_nat n).

(** The value of a string of decimal digits, [int(s)]; [None] when a
    character is not a digit or the string is empty. *)
Fixpoint int_go (acc : N) (s : string) : option N :=
  match s with
  | EmptyString => Some acc
  | String c s' =>
      match Ascii.is_nat c with
      | Some d => int_go (10 * acc + N.of_nat d) s'
      | None => None
      end
  end.

Definition int_of_digits (s : string) : option N :=
  match s with
  | EmptyString => None
  | _ => int_go 0 s
  end.

End PyStr.

(** ** [pathlib] paths

  A path is the list of its components below a fixed anchor (the
  filesystem root or the working directory), innermost component first:
  the head is [Path.name], the tail is [Path.parent]. *)

Module Pathlib.

Abbreviation path := (list string).

(** [p / name] for a single component [name]. *)
Definition joinpath (p : path) (name : string) : path := name :: p.

Notation "p </> n" := (joinpath p n) (at level 40, left associativity).

(** [Path.name] *)
Definition name (p : path) : string :=
  match p with
  | [] => ""
  | n :: _ => n
  end.

(** [Path.parent]; the anchor is its own parent. *)
Definition parent (p : path) : path :=
  match p with
  | [] => []
  | _ :: q => q
  end.

(** [PurePath.suffix] of a file name:
    [i = name.rfind('.')], and [name[i:]] if [0 < i < len(name) - 1],
    else the empty string. *)
Definition name_suffix (n : string) : string :=
  match PyStr.rfind_dot n with
  | Some i =>
      if bool_decide (0 < i) && bool_decide (i < String.length n - 1)
      then PyStr.drop i n else ""
  | None => ""
  end.

(** [PurePath.stem] of a file name: [name[:i]] under the same test, else
    the whole name. *)
Definition name_stem (n : string) : string :=
  match PyStr.rfind_dot n with
  | Some i =>
      if bool_decide (0 < i) && bool_decide (i < String.length n - 1)
      then PyStr.take i n else n
  | None => n
  end.

Definition suffix (p : path) : string := name_suffix (name p).
Definition stem (p : path) : string := name_stem (name p).

End Pathlib.

Import Pathlib.

(** ** Dates

    A [datetime.datetime] value. The library keeps every field in range
    ([valid]); the scripts only build dates through [strptime] and
    [fromtimestamp]. *)

Module Datetime.

Record datetime := {
  year : N;
  month : N;
  day : N;
  hour : N;
  minute : N;
  second : N
}.

#[global] Instance datetime_eq_dec : EqDecision datetime.
Proof. solve_decision. Defined.

Definition valid (d : datetime) : Prop :=
  (1 ≤ year d ≤ 9999 ∧ 1 ≤ month d ≤ 12 ∧ 1 ≤ day d ≤ 31 ∧
   hour d < 24 ∧ minute d < 60 ∧ second d < 60)%N.

(** [d.strftime("%Y")]: the year with century, four digits. *)
Definition strftime_Y (d : datetime) : string :=
  PyStr.zfill 4 (PyStr.str_of_N (year d)).

(** [d.strftime("%m")]: the month, two digits. *)
Definition strftime_m (d : datetime) : string :=
  PyStr.zfill 2 (PyStr.str_of_N (month d)).

(** [d.strftime("%d")]: the day of the month, two digits. *)
Definition strftime_d (d : datetime) : string :=
  PyStr.zfill 2 (PyStr.str_of_N (day d)).

End Datetime.

Import Datetime.

(** ** The filesystem

    What the scripts see of the filesystem: which paths exist, whether
    they are directories or regular files, what a regular file holds, and
    in which directories the process may not create or remove entries. *)

Module Fs.

(** What the metadata readers and the filesystem see in a regular file.
    - [pil_exif]: the dictionary [Image.open(p)._getexif()] returns, as the
      list of its items in iteration order; [None] when [Image.open] or
      [_getexif] raises, or when [_getexif] returns [None].
    - [exifread_tags]: the dictionary [exifread.process_file] returns, the
      values already rendered by [str]; [None] when opening or processing
      raises.
    - [mtime]: [datetime.fromtimestamp(os.path.getmtime(p))]. *)
Record file_data := {
  pil_exif : option (list (Z * string));
  exifread_tags : option (gmap string string);
  mtime : datetime
}.

Inductive node :=
| Dir
| File (m : file_data).

(** The [OSError]s of the model. *)
Inductive errno := ENOENT | ENOTDIR | EEXIST | EACCES | EISDIR.

(** The result of a call that may raise. *)
Inductive outcome (A : Type) :=
| Ok (a : A)
| Raise (e : errno).

Arguments Ok {A} a.
Arguments Raise {A} e.

Record filesystem := {
  nodes : gmap path node;
  denied : path → bool
}.

Definition with_nodes (fs : filesystem) (m : gmap path node) : filesystem :=
  {| nodes := m; denied := denied fs |}.

(** [os.stat]: the anchor is a directory that always exists. *)
Definition stat (fs : filesystem) (p : path) : option node :=
  match p with
  | [] => Some Dir
  | _ => nodes fs !! p
  end.

(** [Path.exists()] *)
Definition path_exists (fs : filesystem) (p : path) : bool :=
  match stat fs p with
  | Some _ => true
  | None => false
  end.

(** [Path.is_dir()] *)
Definition is_dir (fs : filesystem) (p : path) : bool :=
  match stat fs p with
  | Some Dir => true
  | _ => false
  end.

(** [Path.is_file()] *)
Definition is_file (fs : filesystem) (p : path) : bool :=
  match stat fs p with
  | Some (File _) => true
  | _ => false
  end.

(** The test every call that adds an entry named [p] makes on the
    directory that is to hold it. *)
Definition check_parent (fs : filesystem) (p : path) : outcome unit :=
  match stat fs (parent p) with
  | None => Raise ENOENT
  | Some (File _) => Raise ENOTDIR
  | Some Dir => if denied fs (parent p) then Raise EACCES else Ok tt
  end.

(** [os.mkdir(p)]: one directory, its parent must be there. *)
Definition os_mkdir (fs : filesystem) (p : path) : outcome filesystem :=
  match stat fs p with
  | Some _ => Raise EEXIST
  | None =>
      match check_parent fs p with
      | Raise e => Raise e
      | Ok _ => Ok (with_nodes fs (<[p := Dir]> (nodes fs)))
      end
  end.

(** [Path.mkdir(parents=False, exist_ok=True)]: [FileNotFoundError] is
    raised again, any other [OSError] is dropped when the path is a
    directory. *)
Definition mkdir_exist_ok (fs : filesystem) (p : path) : outcome filesystem :=
  match os_mkdir fs p with
  | Ok fs' => Ok fs'
  | Raise ENOENT => Raise ENOENT
  | Raise e => if is_dir fs p then Ok fs else Raise e
  end.

(** [Path.mkdir(parents=True, exist_ok=True)]: on [FileNotFoundError] make
    the parent the same way, then the directory itself. Directories made
    before a failure stay: the filesystem is returned in both cases. *)
Fixpoint mkdir_parents (fs : filesystem) (p : path) : filesystem * outcome unit :=
  match os_mkdir fs p with
  | Ok fs' => (fs', Ok tt)
  | Raise ENOENT =>
      match p with
      | [] => (fs, Raise ENOENT)
      | _ :: q =>
          match mkdir_parents fs q with
          | (fs1, Raise e) => (fs1, Raise e)
          | (fs1, Ok _) =>
              match mkdir_exist_ok fs1 p with
              | Ok fs2 => (fs2, Ok tt)
              | Raise e => (fs1, Raise e)
              end
          end
      end
  | Raise e => if is_dir fs p then (fs, Ok tt) else (fs, Raise e)
  end.

(** Where [shutil.move] and [shutil.copy2] put a file sent to [dst]: inside
    [dst] under its own name when [dst] is a directory. *)
Definition real_dst (fs : filesystem) (src dst : path) : path :=
  if is_dir fs dst then dst </> name src else dst.

(** [shutil.move(src, dst)] for a regular file [src] (both scripts test
    [is_file] first): a rename. A directory source is outside the model
    and reported as [EISDIR]. *)
Definition shutil_move (fs : filesystem) (src dst : path) : outcome filesystem :=
  match stat fs src with
  | None => Raise ENOENT
  | Some Dir => Raise EISDIR
  | Some (File m) =>
      let target := real_dst fs src dst in
      if is_dir fs dst && path_exists fs target then Raise EEXIST
      else
        match check_parent fs target with
        | Raise e => Raise e
        | Ok _ =>
            if denied fs (parent src) then Raise EACCES
            else Ok (with_nodes fs (<[target := File m]> (delete src (nodes fs))))
        end
  end.

(** [shutil.copy2(src, dst)] for a regular file [src]: the copy holds the
    same content and the same modification time. *)
Definition shutil_copy2 (fs : filesystem) (src dst : path) : outcome filesystem :=
  match stat fs src with
  | None => Raise ENOENT
  | Some Dir => Raise EISDIR
  | Some (File m) =>
      let target := real_dst fs src dst in
      if bool_decide (target = src) then Raise EEXIST
      else if is_dir fs target then Raise EISDIR
      else
        match check_parent fs target with
        | Raise e => Raise e
        | Ok _ => Ok (with_nodes fs (<[target := File m]> (nodes fs)))
        end
  end.

(** Why [Path.mkdir(parents=True, exist_ok=True)] cannot make [p], read off
    the filesystem before the call: a regular file at [p] or where a
    parent is needed, or a parent in which the process may not write. *)
Fixpoint obstacle (fs : filesystem) (p : path) : option errno :=
  match stat fs p with
  | Some Dir => None
  | Some (File _) => Some EEXIST
  | None =>
      match p with
      | [] => None
      | _ :: q =>
          match stat fs q with
          | Some (File _) => Some ENOTDIR
          | Some Dir => if denied fs q then Some EACCES else None
          | None =>
              match obstacle fs q with
              | Some e => Some e
              | None => if denied fs q then Some EACCES else None
              end
          end
      end
  end.

(** A filesystem is a tree: whatever exists lies in a directory. *)
Definition tree (fs : filesystem) : Prop :=
  ∀ p, is_Some (stat fs p) → is_dir fs (parent p) = true.

End Fs.

Import Fs.

(** ** [cleanup/photosorter.py] *)

Module PhotoSorter.

(** The second component of what [get_photo_date] returns: the strings
    ["EXIF"] and ["File Modified"]. *)
Inductive date_source := EXIF | FileModified.

#[global] Instance date_source_eq_dec : EqDecision date_source.
Proof. solve_decision. Defined.

(** How a [try] block of [get_exif_date] ends: with a [return], with an
    exception (caught by [except Exception: pass]), or by reaching its
    end. *)
Inductive attempt :=
| Returned (d : datetime)
| Raised
| Fell.

(** The [stats] dictionary of [organize_photos]. *)
Record stats := {
  total_files : nat;
  processed : nat;
  skipped : nat;
  exif_used : nat;
  file_date_used : nat;
  errors : nat
}.

Definition stats0 : stats :=
  {| total_files := 0; processed := 0; skipped := 0; exif_used := 0;
     file_date_used := 0; errors := 0 |}.

Definition incr_total (s : stats) : stats :=
  {| total_files := S (total_files s); processed := processed s;
     skipped := skipped s; exif_used := exif_used s;
     file_date_used := file_date_used s; errors := errors s |}.

Definition incr_processed (s : stats) : stats :=
  {| total_files := total_files s; processed := S (processed s);
     skipped := skipped s; exif_used := exif_used s;
     file_date_used := file_date_used s; errors := errors s |}.

Definition incr_exif_used (s : stats) : stats :=
  {| total_files := total_files s; processed := processed s;
     skipped := skipped s; exif_used := S (exif_used s);
     file_date_used := file_date_used s; errors := errors s |}.

Definition incr_file_date_used (s : stats) : stats :=
  {| total_files := total_files s; processed := processed s;
     skipped := skipped s; exif_used := exif_used s;
     file_date_used := S (file_date_used s); errors := errors s |}.

Definition incr_errors (s : stats) : stats :=
  {| total_files := total_files s; processed := processed s;
     skipped := skipped s; exif_used := exif_used s;
     file_date_used := file_date_used s; errors := S (errors s) |}.

(** The update of the statistics after [get_photo_date]:
    [exif_used] when [date_source == "EXIF"], else [file_date_used]. *)
Definition count_source (src : date_source) (st : stats) : stats :=
  if decide (src = EXIF) then incr_exif_used st else incr_file_date_used st.

(** [supported_extensions] of [is_supported_format]. *)
Definition supported_extensions : list string :=
  [".jpg"; ".jpeg"; ".raf"; ".JPG"; ".JPEG"; ".RAF"].

(** [is_supported_format(file_path)] *)
Definition is_supported_format (file_path : path) : bool :=
  bool_decide (suffix file_path ∈ supported_extensions).

(** The path [create_date_path] builds before it makes the directory. *)
Definition date_path (base_dir : path) (date_obj : datetime) : path :=
  base_dir </> strftime_Y date_obj </> strftime_m date_obj
           </> strftime_d date_obj.

(** [create_date_path(base_dir, date_obj)]: an error of [mkdir] is not
    caught here. *)
Definition create_date_path (fs : filesystem) (base_dir : path)
    (date_obj : datetime) : filesystem * outcome path :=
  match mkdir_parents fs (date_path base_dir date_obj) with
  | (fs', Ok _) => (fs', Ok (date_path base_dir date_obj))
  | (fs', Raise e) => (fs', Raise e)
  end.

(** The name tried at [counter]: [f"{original_name}_{counter}{extension}"]. *)
Definition numbered (original_name extension : string) (counter : nat) : string :=
  original_name +:+ "_" +:+ PyStr.str_of_nat counter +:+ extension.

(** The [while dest_file_path.exists()] loop of [organize_photos], from the
    state [(dest_file_path, counter)]. The loop has no bound of its own:
    [fuel] bounds the iterations of the model, and [None] means the fuel
    ran out. *)
Fixpoint conflict_loop (fuel : nat) (fs : filesystem) (date_folder : path)
    (original_name extension : string) (dest_file_path : path)
    (counter : nat) : option (path * nat) :=
  match fuel with
  | O => None
  | S fuel' =>
      if path_exists fs dest_file_path
      then conflict_loop fuel' fs date_folder original_name extension
             (date_folder </> numbered original_name extension counter)
             (S counter)
      else Some (dest_file_path, counter)
  end.

(** Lines 154-163 of [organize_photos]: the destination of [file_path] in
    [date_folder], with the final value of [counter]. *)
Definition handle_conflicts (fuel : nat) (fs : filesystem)
    (date_folder file_path : path) : option (path * nat) :=
  conflict_loop fuel fs date_folder (stem file_path) (suffix file_path)
    (date_folder </> name file_path) 1.

(** The path the loop tests at its turn [k], counting from 0: the name as
    it is, then the numbered names. *)
Definition probed (date_folder file_path : path) (k : nat) : path :=
  match k with
  | O => date_folder </> name file_path
  | S _ => date_folder </> numbered (stem file_path) (suffix file_path) k
  end.

(** Iterations that always suffice: every probe that goes on finds an
    entry of the filesystem, and no two probes look at the same path. *)
Definition enough_fuel (fs : filesystem) : nat := size (nodes fs) + 2.

(** The spec's [RoutingDecision]: the destination, and whether the loop
    renamed (its body ran, so [counter] left 1). *)
Record RoutingDecision := {
  destinationPath : path;
  created : bool
}.

Definition decision (r : path * nat) : RoutingDecision :=
  {| destinationPath := r.1; created := bool_decide (1 < r.2) |}.

Section Reader.

(** [datetime.strptime(value, "%Y:%m:%d %H:%M:%S")]; [None] when it
    raises. *)
Variable strptime : string → option datetime.

(** [PIL.ExifTags.TAGS], a dictionary from tag numbers to tag names. *)
Variable TAGS : Z → option string.

Definition parse (value : string) : attempt :=
  match strptime value with
  | Some d => Returned d
  | None => Raised
  end.

(** The [for tag_id, value in exif_data.items()] loop of method 1. *)
Fixpoint pil_loop (items : list (Z * string)) : attempt :=
  match items with
  | [] => Fell
  | (tag_id, value) :: rest =>
      if bool_decide (TAGS tag_id = Some "DateTimeOriginal") then parse value
      else if bool_decide (TAGS tag_id = Some "DateTime") then parse value
      else pil_loop rest
  end.

(** [value] is what one of the date fields the two methods look at holds:
    a [DateTimeOriginal] or [DateTime] item of PIL's dictionary, or the
    [EXIF DateTimeOriginal] or [Image DateTime] tag of exifread's. *)
Definition date_field (m : file_data) (value : string) : Prop :=
  (∃ items tag_id, pil_exif m = Some items ∧ (tag_id, value) ∈ items
     ∧ (TAGS tag_id = Some "DateTimeOriginal" ∨ TAGS tag_id = Some "DateTime"))
  ∨ (∃ tags, exifread_tags m = Some tags
       ∧ (tags !! "EXIF DateTimeOriginal" = Some value
          ∨ tags !! "Image DateTime" = Some value)).

(** Method 1 of [get_exif_date], using PIL. *)
Definition method1 (m : file_data) : attempt :=
  match pil_exif m with
  | None => Raised
  | Some [] => Fell
  | Some items => pil_loop items
  end.

(** Method 2 of [get_exif_date], using exifread. *)
Definition method2 (m : file_data) : attempt :=
  match exifread_tags m with
  | None => Raised
  | Some tags =>
      match tags !! "EXIF DateTimeOriginal" with
      | Some date_str => parse date_str
      | None =>
          match tags !! "Image DateTime" with
          | Some date_str => parse date_str
          | None => Fell
          end
      end
  end.

(** [get_exif_date(file_path)]: nothing can be opened where there is no
    regular file, and both methods raise. *)
Definition get_exif_date (fs : filesystem) (file_path : path) : option datetime :=
  match stat fs file_path with
  | Some (File m) =>
      match method1 m with
      | Returned d => Some d
      | _ =>
          match method2 m with
          | Returned d => Some d
          | _ => None
          end
      end
  | _ => None
  end.

(** [get_file_date(file_path)]: [os.path.getmtime] raises where nothing
    exists. The dates of directories are not modelled (the script asks for
    the date of regular files only). *)
Definition get_file_date (fs : filesystem) (file_path : path) : outcome datetime :=
  match stat fs file_path with
  | Some (File m) => Ok (mtime m)
  | Some Dir => Raise EISDIR
  | None => Raise ENOENT
  end.

(** [get_photo_date(file_path)] *)
Definition get_photo_date (fs : filesystem) (file_path : path)
    : outcome (datetime * date_source) :=
  match get_exif_date fs file_path with
  | Some exif_date => Ok (exif_date, EXIF)
  | None =>
      match get_file_date fs file_path with
      | Ok file_date => Ok (file_date, FileModified)
      | Raise e => Raise e
      end
  end.

(** Lines 143-163 of [organize_photos], the spec's [route]: the date, the
    statistics, the dated directory, and the destination free of
    conflicts. An exception leaves at the point it is raised, with the
    filesystem and the statistics as they are then. [None] only if the
    loop ran out of fuel. *)
Definition route (fs : filesystem) (st : stats) (dest_path file_path : path)
    : option (filesystem * stats * outcome (path * nat)) :=
  match get_photo_date fs file_path with
  | Raise e => Some (fs, st, Raise e)
  | Ok (photo_date, date_source) =>
      let st1 := count_source date_source st in
      match create_date_path fs dest_path photo_date with
      | (fs1, Raise e) => Some (fs1, st1, Raise e)
      | (fs1, Ok date_folder) =>
          match handle_conflicts (enough_fuel fs1) fs1 date_folder file_path with
          | None => None
          | Some r => Some (fs1, st1, Ok r)
          end
      end
  end.

(** [shutil.copy2] or [shutil.move], as [copy_files] says. *)
Definition transfer (copy_files : bool) (fs : filesystem) (src dst : path)
    : outcome filesystem :=
  if copy_files then shutil_copy2 fs src dst else shutil_move fs src dst.

(** One turn of the [for file_path in source_path.rglob('*')] loop. Every
    exception of the [try] block is caught, counted in [errors], and the
    loop goes on. *)
Definition process (copy_files dry_run : bool) (dest_path : path)
    (s : filesystem * stats) (file_path : path) : option (filesystem * stats) :=
  if is_file s.1 file_path then
    if negb (is_supported_format file_path) then Some (s.1, incr_total s.2)
    else
      match route s.1 (incr_total s.2) dest_path file_path with
      | None => None
      | Some (fs1, st1, Raise _) => Some (fs1, incr_errors st1)
      | Some (fs1, st1, Ok (dest_file_path, _)) =>
          if dry_run then Some (fs1, incr_processed st1)
          else
            match transfer copy_files fs1 file_path dest_file_path with
            | Ok fs2 => Some (fs2, incr_processed st1)
            | Raise _ => Some (fs1, incr_errors st1)
            end
      end
  else Some s.

(** The whole loop, over the paths [rglob] yields. *)
Fixpoint process_all (copy_files dry_run : bool) (dest_path : path)
    (s : filesystem * stats) (walk : list path) : option (filesystem * stats) :=
  match walk with
  | [] => Some s
  | file_path :: rest =>
      match process copy_files dry_run dest_path s file_path with
      | None => None
      | Some s' => process_all copy_files dry_run dest_path s' rest
      end
  end.

(** [organize_photos(source_dir, destination_dir, copy_files, dry_run)],
    with [walk] the sequence [source_path.rglob('*')] yields. It returns
    early ([Ok None]) when the source does not exist, lets an error of the
    first [mkdir] through, and otherwise ends with the statistics it
    prints. *)
Definition organize_photos (walk : list path) (source_dir destination_dir : path)
    (copy_files dry_run : bool) (fs : filesystem)
    : option (filesystem * outcome (option stats)) :=
  if negb (path_exists fs source_dir) then Some (fs, Ok None)
  else
    match mkdir_parents fs destination_dir with
    | (fs1, Raise e) => Some (fs1, Raise e)
    | (fs1, Ok _) =>
        match process_all copy_files dry_run destination_dir (fs1, stats0) walk with
        | None => None
        | Some (fs2, st) => Some (fs2, Ok (Some st))
        end
    end.

End Reader.

End PhotoSorter.

Import PhotoSorter.

(** ** [cleanup/organize_files.py] *)

Module OrganizeFiles.

(** The [while destination.exists()] loop of [move_file_safely], from the
    state [(destination, counter)]; [fuel] as in [conflict_loop]. *)
Fixpoint rename_loop (fuel : nat) (fs : filesystem)
    (name_without_ext extension : string) (destination : path)
    (counter : nat) : option (path * nat) :=
  match fuel with
  | O => None
  | S fuel' =>
      if path_exists fs destination
      then rename_loop fuel' fs name_without_ext extension
             (parent destination </> numbered name_without_ext extension counter)
             (S counter)
      else Some (destination, counter)
  end.

(** The destination [move_file_safely] settles on before it moves. *)
Definition safe_destination (fuel : nat) (fs : filesystem) (destination : path)
    : option (path * nat) :=
  if path_exists fs destination
  then rename_loop fuel fs (stem destination) (suffix destination) destination 1
  else Some (destination, 1).

(** [move_file_safely(source, destination)]: [(True, destination)] after
    the move, [(False, None)] when [shutil.move] raises. *)
Definition move_file_safely (fuel : nat) (fs : filesystem) (source destination : path)
    : option (filesystem * (bool * option path)) :=
  match safe_destination fuel fs destination with
  | None => None
  | Some (dest, _) =>
      match shutil_move fs source dest with
      | Ok fs' => Some (fs', (true, Some dest))
      | Raise _ => Some (fs, (false, None))
      end
  end.

End OrganizeFiles.

Import OrganizeFiles.

(** ** [cleanup/string_replacer.py] *)

Module StringReplacer.

(** A decoded [str]: its code points. *)
Abbreviation text := (list N).

(** A regular file as the replacer sees it: its path as a string, its
    bytes, and whether the process may open it for reading and for
    writing. *)
Record text_file := {
  file_path : string;
  content : list Byte.byte;
  readable : bool;
  writable : bool
}.

Definition set_content (f : text_file) (b : list Byte.byte) : text_file :=
  {| file_path := file_path f; content := b;
     readable := readable f; writable := writable f |}.

(** The mimetypes [is_text_file] accepts beside [text/...]. *)
Definition text_mimetypes : list string :=
  ["application/json"; "application/xml"; "application/javascript";
   "application/x-yaml"; "application/x-sh"; "application/x-python-code"].

(** What a text-mode [read()] does to line ends ([newline=None]): [\r\n]
    and a lone [\r] become [\n]. *)
Fixpoint universal_newlines (s : text) : text :=
  match s with
  | [] => []
  | c :: rest =>
      if bool_decide (c = 13%N) then
        match rest with
        | c' :: rest' =>
            if bool_decide (c' = 10%N) then 10%N :: universal_newlines rest'
            else 10%N :: universal_newlines rest
        | [] => [10%N]
        end
      else c :: universal_newlines rest
  end.

Section Codec.

(** [mimetypes.guess_type(file_path)[0]] *)
Variable guess_type : string → option string.

(** [bytes.decode('utf-8')]; [None] for [UnicodeDecodeError]. *)
Variable decode_utf8 : list Byte.byte → option text.

(** [str.encode('utf-8')]; [None] for [UnicodeEncodeError]. *)
Variable encode_utf8 : text → option (list Byte.byte).

(** The second half of [is_text_file]: read 512 bytes, refuse a null
    byte, try to decode. Any exception gives [False]. *)
Definition sniff (f : text_file) : bool :=
  if readable f then
    let chunk := take 512 (content f) in
    if existsb (Byte.eqb Byte.x00) chunk then false
    else
      match decode_utf8 chunk with
      | Some _ => true
      | None => false
      end
  else false.

(** [is_text_file(file_path)] *)
Definition is_text_file (f : text_file) : bool :=
  match guess_type (file_path f) with
  | Some (String c rest as mime_type) =>
      PyStr.startswith "text/" mime_type
      || bool_decide (mime_type ∈ text_mimetypes)
  | _ => sniff f
  end.

(** [open(file_path, 'r', encoding='utf-8').read()]; [None] when it
    raises. *)
Definition read_text (f : text_file) : option text :=
  if readable f then universal_newlines <$> decode_utf8 (content f) else None.

(** [replace_in_file_content(file_path, search_str, replace_str)]: the
    file afterwards and the value returned. Opening for writing empties
    the file before anything is encoded. *)
Definition replace_in_file_content (f : text_file) (search_str replace_str : text)
    : text_file * bool :=
  if negb (is_text_file f) then (f, false)
  else
    match read_text f with
    | None => (f, false)
    | Some content =>
        if PyStr.contains search_str content then
          let new_content := PyStr.replace search_str replace_str content in
          if writable f then
            match encode_utf8 new_content with
            | Some b => (set_content f b, true)
            | None => (set_content f [], false)
            end
          else (f, false)
        else (f, false)
    end.

End Codec.

End StringReplacer.



(** ** Letter case and endings *)

Module Casing.

(** [str.lower()] on one character, a code point below 256: the capital
    letters [A]-[Z] and the accented capitals from 192 to 222, the
    multiplication sign 215 apart, move 32 places up; the rest stays. *)
Definition lower_char (c : ascii) : ascii :=
  let n := N_of_ascii c in
  if ((65 <=? n) && (n <=? 90)
      || (192 <=? n) && (n <=? 222) && negb (n =? 215))%N
  then ascii_of_N (n + 32) else c.

(** [s.lower()] *)
Fixpoint lower (s : string) : string :=
  match s with
  | EmptyString => ""
  | String c s' => String (lower_char c) (lower s')
  end.

(** [s.endswith(suf)] *)
Definition endswith (suf s : string) : bool :=
  bool_decide (String.length suf ≤ String.length s)
  && bool_decide (PyStr.drop (String.length s - String.length suf) s = suf).

End Casing.

(** ** [cleanup/organize_files.py], the rest *)

Module Organizer.

(** The dictionary [FILE_TYPE_MAPPINGS], its keys in the order they are
    written (the order [items()] yields them in); each set of extensions
    as the list of its elements. *)
Definition FILE_TYPE_MAPPINGS : list (string * list string) := [
  ("Images",
    [".jpg"; ".jpeg"; ".png"; ".gif"; ".bmp"; ".tiff"; ".tif";
     ".webp"; ".svg"; ".ico"; ".heic"; ".heif"; ".raw"; ".cr2";
     ".nef"; ".orf"; ".sr2"; ".dng"]);
  ("Documents",
    [".pdf"; ".doc"; ".docx"; ".txt"; ".rtf"; ".odt"; ".pages";
     ".tex"; ".md"; ".html"; ".htm"; ".xml"; ".epub"; ".mobi"]);
  ("Spreadsheets",
    [".xls"; ".xlsx"; ".csv"; ".ods"; ".numbers"; ".tsv"]);
  ("Presentations",
    [".ppt"; ".pptx"; ".odp"; ".key"]);
  ("Videos",
    [".mp4"; ".avi"; ".mkv"; ".mov"; ".wmv"; ".flv"; ".webm";
     ".m4v"; ".3gp"; ".ogv"; ".mpg"; ".mpeg"; ".m2v"]);
  ("Audio",
    [".mp3"; ".wav"; ".flac"; ".aac"; ".ogg"; ".wma"; ".m4a";
     ".opus"; ".mid"; ".midi"; ".xm"; ".mod"; ".s3m"; ".it";
     ".vitalbank"; ".ableton"; ".logic"]);
  ("Archives",
    [".zip"; ".rar"; ".7z"; ".tar"; ".gz"; ".bz2"; ".xz"; ".tar.gz";
     ".tar.bz2"; ".tar.xz"; ".dmg"; ".iso"; ".img"; ".sit"; ".sitx";
     ".exe"; ".msi"; ".deb"; ".rpm"; ".appimage"; ".pkg";
     ".torrent"; ".xpi"]);
  ("Games",
    [".gba"; ".gb"; ".gbc"; ".nes"; ".snes"; ".sfc"; ".n64"; ".z64";
     ".md"; ".smd"; ".gg"; ".sms"; ".pce"; ".ngp"; ".ws"; ".wsc";
     ".rom"; ".iso"; ".cue"; ".bin"; ".img"; ".nds"; ".3ds"; ".cia";
     ".srm"; ".sav"; ".ips"; ".ups"; ".bps"; ".psu"; ".mcr"; ".vmc"]);
  ("Code",
    [".py"; ".js"; ".html"; ".css"; ".json"; ".xml"; ".yaml";
     ".yml"; ".sh"; ".bat"; ".ps1"; ".php"; ".rb"; ".go"; ".rust";
     ".c"; ".cpp"; ".h"; ".hpp"; ".java"; ".kt"; ".swift"; ".r";
     ".sql"; ".cfg"; ".conf"; ".ini"; ".toml"; ".env";
     ".dockerfile"; ".makefile"; ".cmake"; ".gitignore";
     ".gitattributes"; ".editorconfig"; ".eslintrc"; ".prettierrc";
     ".babelrc"; ".vscode"; ".idea"; ".lic"; ".license"; ".rdp";
     ".ovpn"; ".pem"; ".key"; ".crt"; ".p12"; ".pfx"; ".jks";
     ".tfstate"; ".tf"; ".hcl"; ".ics"]);
  ("Fonts",
    [".ttf"; ".otf"; ".woff"; ".woff2"; ".eot"])
].

(** The set [SKIP_FILES]. *)
Definition SKIP_FILES : list string := [
  ".ds_store"; ".localized"; "desktop.ini"; "thumbs.db"; ".directory";
  "$recycle.bin"; "system volume information"; ".spotlight-v100";
  ".trashes"; ".fseventsd"; ".temporaryitems"
].

(** The [for category, extensions in FILE_TYPE_MAPPINGS.items()] loop of
    [get_file_category]: the first category that holds the extension. *)
Fixpoint first_category (extension : string)
    (mappings : list (string * list string)) : option string :=
  match mappings with
  | [] => None
  | (category, extensions) :: rest =>
      if bool_decide (extension ∈ extensions) then Some category
      else first_category extension rest
  end.

(** [get_file_category(file_path)] *)
Definition get_file_category (file_path : path) : option string :=
  let extension := Casing.lower (suffix file_path) in
  if existsb (λ e, Casing.endswith e (Casing.lower (name file_path)))
       [".tar.gz"; ".tar.bz2"; ".tar.xz"]
  then Some "Archives"
  else first_category extension FILE_TYPE_MAPPINGS.

(** [should_skip_file(file_path)]: [a or b and c or d]. *)
Definition should_skip_file (fs : filesystem) (file_path : path) : bool :=
  let file_name := Casing.lower (name file_path) in
  bool_decide (file_name ∈ SKIP_FILES)
  || PyStr.startswith "." file_name && bool_decide (1 < String.length file_name)
  || is_dir fs file_path.

(** [create_category_folders(base_path, categories)], over the categories
    in the order the loop meets them: the filesystem afterwards and the
    value returned. An [OSError] of [mkdir] ends the loop with [False];
    the folders made before it stay. *)
Fixpoint create_category_folders (fs : filesystem) (base_path : path)
    (categories : list string) : filesystem * bool :=
  match categories with
  | [] => (fs, true)
  | category :: rest =>
      let folder_path := base_path </> category in
      if negb (path_exists fs folder_path) then
        match mkdir_exist_ok fs folder_path with
        | Ok fs' => create_category_folders fs' base_path rest
        | Raise _ => (fs, false)
        end
      else create_category_folders fs base_path rest
  end.

(** [files_to_organize[category].append(item)] on a [defaultdict(list)]:
    the dictionary as the list of its items, a new key at the end. *)
Fixpoint dict_append (d : list (string * list path)) (category : string)
    (item : path) : list (string * list path) :=
  match d with
  | [] => [(category, [item])]
  | (c, files) :: rest =>
      if bool_decide (c = category) then (c, files ++ [item]) :: rest
      else (c, files) :: dict_append rest category item
  end.

(** The first loop of [organize_folder], over what [iterdir()] yields:
    the files to organize by category, and the names skipped. *)
Fixpoint collect (fs : filesystem) (items : list path)
    (files_to_organize : list (string * list path))
    (skipped_files : list string)
    : list (string * list path) * list string :=
  match items with
  | [] => (files_to_organize, skipped_files)
  | item :: rest =>
      if is_file fs item then
        if should_skip_file fs item
        then collect fs rest files_to_organize (skipped_files ++ [name item])
        else
          match get_file_category item with
          | Some (String _ _ as category) =>
              collect fs rest (dict_append files_to_organize category item)
                skipped_files
          | _ => collect fs rest files_to_organize skipped_files
          end
      else collect fs rest files_to_organize skipped_files
  end.

(** The inner loop of the moves: the files of one category, with the
    counters [(moved_count, failed_count)]. [None] only if a rename loop
    ran out of fuel. *)
Fixpoint move_files (fs : filesystem) (category_folder : path)
    (files : list path) (counts : nat * nat)
    : option (filesystem * (nat * nat)) :=
  match files with
  | [] => Some (fs, counts)
  | file_path :: rest =>
      let destination := category_folder </> name file_path in
      match move_file_safely (enough_fuel fs) fs file_path destination with
      | None => None
      | Some (fs', (true, _)) =>
          move_files fs' category_folder rest (S counts.1, counts.2)
      | Some (fs', (false, _)) =>
          move_files fs' category_folder rest (counts.1, S counts.2)
      end
  end.

(** The outer loop of the moves, over the items of [files_to_organize]. *)
Fixpoint move_all (fs : filesystem) (folder_path : path)
    (files_to_organize : list (string * list path)) (counts : nat * nat)
    : option (filesystem * (nat * nat)) :=
  match files_to_organize with
  | [] => Some (fs, counts)
  | (category, files) :: rest =>
      match move_files fs (folder_path </> category) files counts with
      | None => None
      | Some (fs', counts') => move_all fs' folder_path rest counts'
      end
  end.

Section Folder.

(** What [folder_path.iterdir()] yields. *)
Variable iterdir : list path.

(** The order in which the set [categories_needed] is gone through. *)
Variable set_iter : list string → list string.

(** [input(...).strip().lower()], the answer to the confirmation. *)
Variable response : string.

(** [organize_folder(folder_path)], for a resolved path: the filesystem
    afterwards, the value returned, and the two counters of the summary
    (both 0 where the moves are not reached). *)
Definition organize_folder (fs : filesystem) (folder_path : path)
    : option (filesystem * bool * (nat * nat)) :=
  if negb (path_exists fs folder_path) then Some (fs, false, (0, 0))
  else if negb (is_dir fs folder_path) then Some (fs, false, (0, 0))
  else
    let files_to_organize := (collect fs iterdir [] []).1 in
    match files_to_organize with
    | [] => Some (fs, true, (0, 0))
    | _ =>
        if negb (bool_decide (response = "y")) then Some (fs, false, (0, 0))
        else
          match create_category_folders fs folder_path
                  (set_iter (files_to_organize.*1)) with
          | (fs1, false) => Some (fs1, false, (0, 0))
          | (fs1, true) =>
              match move_all fs1 folder_path files_to_organize (0, 0) with
              | None => None
              | Some (fs2, counts) => Some (fs2, true, counts)
              end
          end
    end.

End Folder.

End Organizer.

(** ** [cleanup/string_replacer.py], the names *)

Module Renaming.

Section Names.

Context {A : Type} `{EqDecision A}.

(** [get_new_name(old_name, search_str, replace_str)] *)
Definition get_new_name (old_name search_str replace_str : list A)
    : option (list A) :=
  if PyStr.contains search_str old_name
  then Some (PyStr.replace search_str replace_str old_name)
  else None.

(** The test [if new_name and new_name != path.name] of
    [process_directory], made for files, directories and the root alike:
    the name to rename to, if any. *)
Definition rename_target (old_name search_str replace_str : list A)
    : option (list A) :=
  match get_new_name old_name search_str replace_str with
  | Some new_name =>
      if bool_decide (new_name ≠ []) && bool_decide (new_name ≠ old_name)
      then Some new_name else None
  | None => None
  end.

End Names.

End Renaming.

(** ** Instances of the libraries' functions, for the examples *)

Module Samples.

(** The two entries of [PIL.ExifTags.TAGS] the sorter looks for. *)
Definition TAGS (tag_id : Z) : option string :=
  if bool_decide (tag_id = 36867%Z) then Some "DateTimeOriginal"
  else if bool_decide (tag_id = 306%Z) then Some "DateTime"
  else None.

(** [strptime] on the strings of exactly the form [YYYY:MM:DD HH:MM:SS]
    with every field in range. *)
Definition strptime (s : string) : option datetime :=
  if bool_decide (String.length s = 19)
     && bool_decide (PyStr.take 1 (PyStr.drop 4 s) = ":")
     && bool_decide (PyStr.take 1 (PyStr.drop 7 s) = ":")
     && bool_decide (PyStr.take 1 (PyStr.drop 10 s) = " ")
     && bool_decide (PyStr.take 1 (PyStr.drop 13 s) = ":")
     && bool_decide (PyStr.take 1 (PyStr.drop 16 s) = ":")
  then
    y ← PyStr.int_of_digits (PyStr.take 4 s);
    mo ← PyStr.int_of_digits (PyStr.take 2 (PyStr.drop 5 s));
    d ← PyStr.int_of_digits (PyStr.take 2 (PyStr.drop 8 s));
    h ← PyStr.int_of_digits (PyStr.take 2 (PyStr.drop 11 s));
    mi ← PyStr.int_of_digits (PyStr.take 2 (PyStr.drop 14 s));
    se ← PyStr.int_of_digits (PyStr.take 2 (PyStr.drop 17 s));
    if bool_decide (1 ≤ y)%N && bool_decide (1 ≤ mo ≤ 12)%N
       && bool_decide (1 ≤ d ≤ 31)%N && bool_decide (h < 24)%N
       && bool_decide (mi < 60)%N && bool_decide (se < 60)%N
    then Some {| year := y; month := mo; day := d;
                 hour := h; minute := mi; second := se |}
    else None
  else None.

(** A filesystem with no entry and no restriction. *)
Definition empty_fs : filesystem :=
  {| nodes := ∅; denied := λ _, false |}.

(** A JPEG whose only metadata is what PIL reads. *)
Definition jpeg (items : list (Z * string)) (t : datetime) : file_data :=
  {| pil_exif := Some items; exifread_tags := Some ∅; mtime := t |}.

(** A JPEG on which PIL finds the generic date first and the capture time
    after it, a day apart. *)
Definition two_dates : file_data :=
  jpeg [(306%Z, "2024:03:08 09:00:00"); (36867%Z, "2024:03:07 10:00:00")]
       {| year := 2025; month := 1; day := 1;
          hour := 0; minute := 0; second := 0 |}.

(** A file without metadata. *)
Definition plain (t : datetime) : file_data :=
  {| pil_exif := None; exifread_tags := None; mtime := t |}.

Definition date (y mo d h mi s : N) : datetime :=
  {| year := y; month := mo; day := d; hour := h; minute := mi; second := s |}.

(** A filesystem holding the given files, and the directories on the way
    to them. *)
Definition with_file (fs : filesystem) (p : path) (m : file_data) : filesystem :=
  with_nodes (mkdir_parents fs (parent p)).1 (<[p := File m]> (nodes (mkdir_parents fs (parent p)).1)).

(** A photo taken on 2023-11-05 at 08:30:00, last written in 2025. *)
Definition shot : file_data :=
  jpeg [(271%Z, "FUJIFILM"); (36867%Z, "2023:11:05 08:30:00")]
       (date 2025 1 1 0 0 0).

(** A photo of 2024-03-07, 10:00:00. *)
Definition march : file_data :=
  jpeg [(36867%Z, "2024:03:07 10:00:00")] (date 2025 1 1 0 0 0).

(** A JPEG whose capture time does not parse. *)
Definition unreadable : file_data :=
  jpeg [(36867%Z, "0000:00:00 00:00:00")] (date 2022 6 30 12 0 0).

(** [in/IMG_01.JPG], and nothing else. *)
Definition inbox : filesystem :=
  with_file empty_fs ["IMG_01.JPG"; "in"] shot.

(** [root/2024/03/07/photo.jpg] in place, and two more files named
    [photo.jpg] of the same day waiting in [a] and [b]. *)
Definition three_photos : filesystem :=
  with_file
    (with_file
       (with_file empty_fs ["photo.jpg"; "07"; "03"; "2024"; "root"] march)
       ["photo.jpg"; "a"] march)
    ["photo.jpg"; "b"] march.

(** [in/IMG_01.JPG], and a regular file named [2023] in [out]. *)
Definition file_in_the_way : filesystem :=
  with_file inbox ["2023"; "out"] (plain (date 2020 1 1 0 0 0)).

(** [in/IMG_01.JPG], and a directory [out] the process may not write in. *)
Definition read_only_root : filesystem :=
  {| nodes := nodes (mkdir_parents inbox ["out"]).1;
     denied := λ p, bool_decide (p = ["out"]) |}.

(** [mimetypes.guess_type] on three names. *)
Definition guess_type (file_path : string) : option string :=
  if bool_decide (file_path = "notes.txt") then Some "text/plain"
  else if bool_decide (file_path = "photo.jpg") then Some "image/jpeg"
  else None.

(** UTF-8 on the bytes and code points below 128. *)
Definition decode_utf8 (b : list Byte.byte) : option (list N) :=
  if forallb (λ x, N.ltb (Byte.to_N x) 128) b
  then Some (Byte.to_N <$> b) else None.

Definition encode_utf8 (s : list N) : option (list Byte.byte) :=
  if forallb (λ c, N.ltb c 128) s
  then mapM Byte.of_N s else None.

(** The code points of an ASCII string. *)
Definition codes (s : string) : list N :=
  Byte.to_N <$> String.list_byte_of_string s.

(** A file that can be read and written. *)
Definition text_file (file_path content : string) : StringReplacer.text_file :=
  {| StringReplacer.file_path := file_path;
     StringReplacer.content := String.list_byte_of_string content;
     StringReplacer.readable := true;
     StringReplacer.writable := true |}.

(** A directory in which the name of [file_path] and its numbered names
    up to [n] are all taken. *)
Definition crowded (n : nat) (date_folder file_path : path) (m : file_data)
    : filesystem :=
  {| nodes := list_to_map
       ((λ k, (probed date_folder file_path k, File m)) <$> seq 0 (S n));
     denied := λ _, false |}.

(** A downloads folder [dl]: a photo, a text file, a hidden file, a file
    of no known type and an archive; and what [iterdir()] yields there. *)
Definition downloads : filesystem :=
  with_file
    (with_file
       (with_file
          (with_file
             (with_file empty_fs ["Holiday.JPG"; "dl"] shot)
             ["notes.txt"; "dl"] (plain (date 2024 1 2 3 4 5)))
          [".hidden.txt"; "dl"] (plain (date 2024 1 2 3 4 6)))
       ["weird.xyz"; "dl"] (plain (date 2024 1 2 3 4 7)))
    ["backup.tar.gz"; "dl"] (plain (date 2024 1 2 3 4 8)).

Definition listing : list path :=
  [["Holiday.JPG"; "dl"]; ["notes.txt"; "dl"]; [".hidden.txt"; "dl"];
   ["weird.xyz"; "dl"]; ["backup.tar.gz"; "dl"]].

(** The two photos waiting in [three_photos]. *)
Definition waiting : list path := [["photo.jpg"; "a"]; ["photo.jpg"; "b"]].

End Samples.

(** * Properties *)

(** ** Strings and names *)

Section StringFacts.

Lemma append_cons (c : ascii) (a b : string) :
  String c a +:+ b = String c (a +:+ b).
Proof. reflexivity. Qed.

Lemma append_empty_l (b : string) : "" +:+ b = b.
Proof. reflexivity. Qed.

Lemma append_empty_r (a : string) : a +:+ "" = a.
Proof.
  induction a as [|c a IH]; [reflexivity|].
  rewrite append_cons. by rewrite IH.
Qed.

Lemma length_append (a b : string) :
  String.length (a +:+ b) = String.length a + String.length b.
Proof.
  induction a as [|c a IH]; [reflexivity|].
  rewrite append_cons. simpl. by rewrite IH.
Qed.

Lemma append_inj_r (a b c : string) : a +:+ c = b +:+ c → a = b.
Proof.
  revert b. induction a as [|x a IH]; intros [|y b] H.
  - reflexivity.
  - apply (f_equal String.length) in H.
    rewrite append_empty_l, append_cons in H. simpl in H.
    rewrite length_append in H. lia.
  - apply (f_equal String.length) in H.
    rewrite append_empty_l, append_cons in H. simpl in H.
    rewrite length_append in H. lia.
  - rewrite !append_cons in H. injection H as Hxy H. subst y. f_equal. by apply IH.
Qed.

Lemma take_drop (i : nat) (s : string) : PyStr.take i s +:+ PyStr.drop i s = s.
Proof.
  revert i. induction s as [|c s IH]; intros [|i]; simpl; try reflexivity.
  rewrite append_cons. by rewrite IH.
Qed.

(** [stem] and [suffix] split the name: put together they give it back. *)
Lemma stem_suffix (n : string) : name_stem n +:+ name_suffix n = n.
Proof.
  unfold name_stem, name_suffix.
  destruct (PyStr.rfind_dot n) as [i|]; [|apply append_empty_r].
  destruct (bool_decide (0 < i) && bool_decide (i < String.length n - 1)).
  - apply take_drop.
  - apply append_empty_r.
Qed.

Lemma numbered_inj (original_name extension : string) :
  Inj (=) (=) (numbered original_name extension).
Proof.
  intros j k H. unfold numbered in H.
  apply String.app_inj in H. apply String.app_inj in H.
  apply append_inj_r in H.
  unfold PyStr.str_of_nat, PyStr.str_of_N in H.
  apply (inj pretty) in H. lia.
Qed.

(** A numbered name is never the name it was made from. *)
Lemma numbered_ne_name (n : string) (k : nat) :
  numbered (name_stem n) (name_suffix n) k ≠ n.
Proof.
  intros H. apply (f_equal String.length) in H.
  rewrite <- (stem_suffix n) in H at 3. unfold numbered in H.
  rewrite !length_append in H. simpl in H. lia.
Qed.

End StringFacts.

(** ** Decimal numerals *)

Section Numerals.

Lemma pretty_go_app (x : N) (s : string) :
  pretty_N_go x s = pretty_N_go x "" +:+ s.
Proof.
  revert s. induction (N.lt_wf_0 x) as [x _ IH]. intros s.
  destruct (decide (x = 0%N)) as [->|Hx].
  - by rewrite !pretty_N_go_0.
  - assert (0 < x)%N as Hpos by lia.
    rewrite (pretty_N_go_step x s), (pretty_N_go_step x "") by done.
    assert (x `div` 10 < x)%N as Hlt by (apply N.div_lt; lia).
    rewrite (IH _ Hlt (String _ s)), (IH _ Hlt (String _ "")).
    generalize (pretty_N_go (x `div` 10) "") (pretty_N_char (x `mod` 10)).
    clear. intros a c. induction a as [|y a IHa]; [reflexivity|].
    rewrite !append_cons. by rewrite IHa.
Qed.

Lemma pretty_go_snoc (x : N) :
  (0 < x)%N →
  pretty_N_go x "" =
  pretty_N_go (x `div` 10) "" +:+ String (pretty_N_char (x `mod` 10)) "".
Proof.
  intros Hx. rewrite pretty_N_go_step by done. apply pretty_go_app.
Qed.

Lemma length_pretty_go (k : nat) (x : N) :
  (x < 10 ^ N.of_nat k)%N → String.length (pretty_N_go x "") ≤ k.
Proof.
  revert x. induction k as [|k IH]; intros x Hx.
  - assert (x = 0%N) as -> by (simpl in Hx; lia). by rewrite pretty_N_go_0.
  - destruct (decide (x = 0%N)) as [->|Hne].
    { rewrite pretty_N_go_0. simpl. lia. }
    rewrite pretty_go_snoc by lia. rewrite length_append. simpl.
    assert (x `div` 10 < 10 ^ N.of_nat k)%N as Hd.
    { apply N.Div0.div_lt_upper_bound.
      replace (N.of_nat (S k)) with (N.succ (N.of_nat k)) in Hx by lia.
      rewrite N.pow_succ_r' in Hx. lia. }
    specialize (IH _ Hd). lia.
Qed.

Lemma str_of_N_nonempty (x : N) : 1 ≤ String.length (PyStr.str_of_N x).
Proof.
  unfold PyStr.str_of_N, pretty, pretty_N.
  case_decide as H0; [simpl; lia|].
  rewrite pretty_go_snoc by lia. rewrite length_append. simpl. lia.
Qed.

Lemma length_str_of_N (k : nat) (x : N) :
  0 < k → (x < 10 ^ N.of_nat k)%N → String.length (PyStr.str_of_N x) ≤ k.
Proof.
  intros Hk Hx. unfold PyStr.str_of_N, pretty, pretty_N.
  case_decide as H0; [simpl; lia|]. by apply length_pretty_go.
Qed.

Lemma length_zeros (n : nat) : String.length (PyStr.zeros n) = n.
Proof. induction n; simpl; congruence. Qed.

Lemma length_zfill (w : nat) (s : string) :
  String.length s ≤ w → String.length (PyStr.zfill w s) = w.
Proof.
  intros H. unfold PyStr.zfill. rewrite length_append, length_zeros. lia.
Qed.

Lemma int_go_app (acc : N) (a b : string) :
  PyStr.int_go acc (a +:+ b) = PyStr.int_go acc a ≫= λ v, PyStr.int_go v b.
Proof.
  revert acc. induction a as [|c a IH]; intros acc; [reflexivity|].
  rewrite append_cons. simpl. destruct (Ascii.is_nat c); [apply IH|reflexivity].
Qed.

Lemma is_nat_pretty_char (d : N) :
  (d < 10)%N → Ascii.is_nat (pretty_N_char d) = Some (N.to_nat d).
Proof.
  intros H.
  assert (d = 0 ∨ d = 1 ∨ d = 2 ∨ d = 3 ∨ d = 4 ∨ d = 5 ∨ d = 6 ∨ d = 7
          ∨ d = 8 ∨ d = 9)%N as Hd by lia.
  repeat (destruct Hd as [->|Hd]; [reflexivity|]). by subst.
Qed.

Lemma int_go_pretty_go (x : N) : PyStr.int_go 0 (pretty_N_go x "") = Some x.
Proof.
  induction (N.lt_wf_0 x) as [x _ IH].
  destruct (decide (x = 0%N)) as [->|Hx]; [by rewrite pretty_N_go_0|].
  rewrite pretty_go_snoc by lia. rewrite int_go_app.
  rewrite IH by (apply N.div_lt; lia). simpl.
  rewrite is_nat_pretty_char by (apply N.mod_lt; lia).
  f_equal. rewrite N2Nat.id. pose proof (N.div_mod x 10). lia.
Qed.

Lemma int_go_str_of_N (x : N) : PyStr.int_go 0 (PyStr.str_of_N x) = Some x.
Proof.
  unfold PyStr.str_of_N, pretty, pretty_N.
  case_decide as H0; [by subst|]. apply int_go_pretty_go.
Qed.

Lemma int_go_zeros (n : nat) (s : string) :
  PyStr.int_go 0 (PyStr.zeros n +:+ s) = PyStr.int_go 0 s.
Proof.
  induction n as [|n IH]; [reflexivity|].
  change (PyStr.zeros (S n)) with (String "0" (PyStr.zeros n)).
  rewrite append_cons. simpl. apply IH.
Qed.

(** A zero-filled numeral reads back as the number it was made from. *)
Lemma int_of_zfill (w : nat) (x : N) :
  PyStr.int_of_digits (PyStr.zfill w (PyStr.str_of_N x)) = Some x.
Proof.
  unfold PyStr.int_of_digits.
  destruct (PyStr.zfill w (PyStr.str_of_N x)) eqn:E.
  - apply (f_equal String.length) in E. unfold PyStr.zfill in E.
    rewrite length_append in E. pose proof (str_of_N_nonempty x).
    simpl in E. lia.
  - rewrite <- E. unfold PyStr.zfill. rewrite int_go_zeros. apply int_go_str_of_N.
Qed.

End Numerals.

(** ** The filesystem *)

Section FsFacts.

Implicit Types (fs : filesystem) (p q : path).

Lemma stat_with_nodes fs (m : gmap path node) (x : string) q :
  stat (with_nodes fs m) (x :: q) = m !! (x :: q).
Proof. reflexivity. Qed.

Lemma stat_cons fs (x : string) q : stat fs (x :: q) = nodes fs !! (x :: q).
Proof. reflexivity. Qed.

Lemma stat_insert fs p q (n : node) :
  stat (with_nodes fs (<[p := n]> (nodes fs))) q =
  match q with
  | [] => Some Dir
  | _ => if decide (p = q) then Some n else stat fs q
  end.
Proof.
  destruct q as [|x q]; [reflexivity|]. simpl.
  rewrite lookup_insert. by case_decide.
Qed.

Lemma stat_delete fs p q :
  stat (with_nodes fs (delete p (nodes fs))) q =
  match q with
  | [] => Some Dir
  | _ => if decide (p = q) then None else stat fs q
  end.
Proof.
  destruct q as [|x q]; [reflexivity|]. simpl.
  rewrite lookup_delete. by case_decide.
Qed.

Lemma path_exists_stat fs p : path_exists fs p = true ↔ is_Some (stat fs p).
Proof.
  unfold path_exists. destruct (stat fs p); split; intros H; try done.
Qed.

Lemma path_exists_false fs p : path_exists fs p = false ↔ stat fs p = None.
Proof. unfold path_exists. by destruct (stat fs p). Qed.

Lemma is_dir_stat fs p : is_dir fs p = true ↔ stat fs p = Some Dir.
Proof. unfold is_dir. by destruct (stat fs p) as [[]|]. Qed.

Lemma is_file_stat fs p : is_file fs p = true ↔ ∃ m, stat fs p = Some (File m).
Proof.
  unfold is_file. destruct (stat fs p) as [[|m]|]; split; try done;
    try (by intros [? ?]); by eexists.
Qed.

(** [os.mkdir] succeeds exactly where nothing exists yet, the parent is a
    directory and the process may write in it; it adds one directory. *)
Lemma os_mkdir_Ok fs p fs' :
  os_mkdir fs p = Ok fs' ↔
  stat fs p = None ∧ stat fs (parent p) = Some Dir
  ∧ denied fs (parent p) = false
  ∧ fs' = with_nodes fs (<[p := Dir]> (nodes fs)).
Proof.
  unfold os_mkdir, check_parent.
  destruct (stat fs p); [naive_solver|].
  destruct (stat fs (parent p)) as [[|m]|]; [|naive_solver..].
  destruct (denied fs (parent p)); naive_solver.
Qed.

Lemma os_mkdir_ENOENT fs p :
  os_mkdir fs p = Raise ENOENT ↔ stat fs p = None ∧ stat fs (parent p) = None.
Proof.
  unfold os_mkdir, check_parent.
  destruct (stat fs p); [naive_solver|].
  destruct (stat fs (parent p)) as [[|m]|]; [|naive_solver..].
  destruct (denied fs (parent p)); naive_solver.
Qed.

(** What [mkdir] leaves behind: the restrictions as they were, and every
    path as it was, except that absent ancestors of [p] (and [p]) may have
    become directories. *)
Lemma mkdir_parents_frame p : ∀ fs fs' r,
  mkdir_parents fs p = (fs', r) →
  denied fs' = denied fs ∧
  ∀ q, stat fs' q = stat fs q
       ∨ (stat fs q = None ∧ stat fs' q = Some Dir ∧ q `suffix_of` p).
Proof.
  induction p as [|x p IH]; intros fs fs' r H.
  - simpl in H. injection H as <- _. split; [done|]. by left.
  - simpl in H. destruct (os_mkdir fs (x :: p)) as [fs1|e] eqn:E.
    { injection H as <- _. apply os_mkdir_Ok in E as (Hn & _ & _ & ->).
      split; [done|]. intros q. rewrite stat_insert.
      destruct q as [|y q]; [by left|]. case_decide as Hq; [|by left].
      simplify_eq. right. by repeat split. }
    assert (denied fs' = denied fs ∧
            (∀ q, stat fs' q = stat fs q
              ∨ stat fs q = None ∧ stat fs' q = Some Dir ∧ q `suffix_of` x :: p)
            ∨ e = ENOENT) as Hcase.
    { destruct e; try (by right);
        destruct (is_dir fs (x :: p)); injection H as <- _;
        left; (split; [done|]); intros q; by left. }
    destruct Hcase as [?|Hcase]; [done|subst e].
    destruct (mkdir_parents fs p) as [fs1 [[]|e1]] eqn:E1.
    + destruct (IH _ _ _ E1) as [Hd Hf].
      assert (∀ q, stat fs1 q = stat fs q
        ∨ stat fs q = None ∧ stat fs1 q = Some Dir ∧ q `suffix_of` x :: p) as Hf'.
      { intros q. destruct (Hf q) as [?|(?&?&?)]; [by left|right].
        repeat split; try done. by apply suffix_cons_r. }
      unfold mkdir_exist_ok in H.
      destruct (os_mkdir fs1 (x :: p)) as [fs2|e2] eqn:E2.
      * injection H as <- _. apply os_mkdir_Ok in E2 as (Hn & _ & _ & ->).
        split; [done|]. intros q. rewrite stat_insert.
        destruct q as [|y q]; [by left|]. case_decide as Hq; [|apply Hf'].
        simplify_eq. right. apply os_mkdir_ENOENT in E as [E _]. by repeat split.
      * destruct e2; try (destruct (is_dir fs1 (x :: p))); injection H as <- _;
          (split; [done|apply Hf']).
    + injection H as <- _. destruct (IH _ _ _ E1) as [Hd Hf]. split; [done|].
      intros q. destruct (Hf q) as [?|(?&?&?)]; [by left|right].
      repeat split; try done. by apply suffix_cons_r.
Qed.

(** After a successful [mkdir] the directory is there. *)
Lemma mkdir_parents_is_dir p : ∀ fs fs',
  mkdir_parents fs p = (fs', Ok tt) → is_dir fs' p = true.
Proof.
  destruct p as [|x p]; intros fs fs' H; [done|].
  simpl in H. destruct (os_mkdir fs (x :: p)) as [fs1|e] eqn:E.
  { injection H as <-. apply os_mkdir_Ok in E as (_ & _ & _ & ->).
    apply is_dir_stat. rewrite stat_insert. by case_decide. }
  assert (e = ENOENT ∨ (is_dir fs (x :: p) = true ∧ fs' = fs)) as Hcase.
  { destruct e; try (destruct (is_dir fs (x :: p)) eqn:?; [|done];
      injection H as <-; right; done). by left. }
  destruct Hcase as [Hcase|[? Hcase]]; [subst e|by subst fs'].
  destruct (mkdir_parents fs p) as [fs1 [[]|e1]] eqn:E1; [|done].
  unfold mkdir_exist_ok in H.
  destruct (os_mkdir fs1 (x :: p)) as [fs2|e2] eqn:E2.
  - injection H as <-. apply os_mkdir_Ok in E2 as (_ & _ & _ & ->).
    apply is_dir_stat. rewrite stat_insert. by case_decide.
  - destruct e2; try done;
        (destruct (is_dir fs1 (x :: p)) eqn:?; [|done]); by injection H as <-.
Qed.

(** Where the directory exists, [mkdir] changes nothing and raises
    nothing. *)
Lemma mkdir_parents_id fs p :
  is_dir fs p = true → mkdir_parents fs p = (fs, Ok tt).
Proof.
  intros H. destruct p as [|x p]; [done|]. simpl.
  unfold os_mkdir. apply is_dir_stat in H as Hs. rewrite Hs.
  by rewrite H.
Qed.

(** [mkdir] is idempotent. *)
Lemma mkdir_parents_idem fs fs' p :
  mkdir_parents fs p = (fs', Ok tt) → mkdir_parents fs' p = (fs', Ok tt).
Proof. intros H. by eapply mkdir_parents_id, mkdir_parents_is_dir. Qed.

(** Regular files, and whatever exists, are as [mkdir] found them. *)
Lemma mkdir_parents_keeps fs fs' p r q (n : node) :
  mkdir_parents fs p = (fs', r) → stat fs q = Some n → stat fs' q = Some n.
Proof.
  intros H Hq. destruct (mkdir_parents_frame _ _ _ _ H) as [_ Hf].
  destruct (Hf q) as [->|(? & _)]; [done|congruence].
Qed.

(** Below the directory asked for, [mkdir] adds nothing. *)
Lemma mkdir_parents_below fs fs' p r (x : string) :
  mkdir_parents fs p = (fs', r) → stat fs' (p </> x) = stat fs (p </> x).
Proof.
  intros H. destruct (mkdir_parents_frame _ _ _ _ H) as [_ Hf].
  destruct (Hf (p </> x)) as [->|(_ & _ & Hs)]; [done|].
  apply suffix_length in Hs. unfold joinpath in Hs. simpl in Hs. lia.
Qed.

(** [mkdir] fails exactly on an [obstacle], with its error. *)
Lemma mkdir_parents_outcome p : ∀ fs,
  (mkdir_parents fs p).2 =
  match obstacle fs p with
  | None => Ok tt
  | Some e => Raise e
  end.
Proof.
  induction p as [|x p IH]; intros fs; [reflexivity|].
  cbn [mkdir_parents obstacle]. unfold os_mkdir, check_parent, is_dir.
  destruct (stat fs (x :: p)) as [[|m]|] eqn:Ep; [reflexivity..|].
  cbn [parent].
  destruct (stat fs p) as [[|m]|] eqn:Eq; [|reflexivity|].
  { by destruct (denied fs p). }
  specialize (IH fs). destruct (mkdir_parents fs p) as [fs1 [[]|e1]] eqn:E1;
    cbn [snd] in IH; destruct (obstacle fs p) as [e|]; try done.
  assert (stat fs1 (x :: p) = None) as Hn.
  { rewrite <- Ep. apply (mkdir_parents_below _ _ _ _ x E1). }
  apply mkdir_parents_is_dir in E1 as Hd. apply is_dir_stat in Hd.
  destruct (mkdir_parents_frame _ _ _ _ E1) as [Hden _].
  unfold mkdir_exist_ok, os_mkdir, check_parent, is_dir. rewrite Hn.
  cbn [parent]. rewrite Hd, Hden. by destruct (denied fs p).
Qed.

(** An obstacle is a regular file on the way, or a missing directory
    whose parent the process may not write in. *)
Lemma obstacle_cause p : ∀ fs e,
  obstacle fs p = Some e →
  (∃ q, q `suffix_of` p ∧ is_file fs q = true)
  ∨ (∃ q, q `suffix_of` p ∧ stat fs q = None ∧ denied fs (parent q) = true).
Proof.
  induction p as [|x p IH]; intros fs e H; [done|].
  cbn [obstacle] in H.
  destruct (stat fs (x :: p)) as [[|m]|] eqn:Ep; [done| |].
  { left. exists (x :: p). split; [done|]. apply is_file_stat. eauto. }
  destruct (stat fs p) as [[|m]|] eqn:Eq.
  - destruct (denied fs p) eqn:Ed; [|done].
    right. exists (x :: p). done.
  - left. exists p. split; [by apply suffix_cons_r|]. apply is_file_stat. eauto.
  - destruct (obstacle fs p) as [e'|] eqn:Eo.
    + destruct (IH _ _ Eo) as [(q & ? & ?)|(q & ? & ?)]; [left|right];
        exists q; (split; [by apply suffix_cons_r|done]).
    + destruct (denied fs p) eqn:Ed; [|done].
      right. exists (x :: p). done.
Qed.

(** *** Trees

    The calls of the model keep a filesystem a tree, and on a tree the
    order in which [os.mkdir] makes its tests cannot be seen. *)

Lemma tree_nodes fs :
  tree fs ↔ ∀ x p, is_Some (nodes fs !! (x :: p)) → is_dir fs p = true.
Proof.
  split.
  - intros H x p Hs. by apply (H (x :: p)).
  - intros H [|x p] Hs; [done|]. by apply (H x p).
Qed.

Lemma tree_empty (d : path → bool) : tree {| nodes := ∅; denied := d |}.
Proof.
  apply tree_nodes. intros x p [n Hn]. cbn [nodes] in Hn.
  by rewrite lookup_empty in Hn.
Qed.

(** Adding an entry in a directory, at a place that is not a directory,
    keeps a tree. *)
Lemma tree_insert fs p (n : node) :
  tree fs → is_dir fs (parent p) = true → is_dir fs p = false →
  tree (with_nodes fs (<[p := n]> (nodes fs))).
Proof.
  intros Ht Hpar Hnd. apply tree_nodes. intros x q Hs.
  assert (is_dir fs q = true) as Hq.
  { cbn [nodes with_nodes] in Hs. rewrite lookup_insert in Hs.
    case_decide as Hp; [by subst p|]. by apply (Ht (x :: q)). }
  apply is_dir_stat. apply is_dir_stat in Hq. rewrite stat_insert.
  destruct q as [|y q]; [done|]. case_decide as Hp; [|done].
  subst p. apply is_dir_stat in Hq. congruence.
Qed.

(** Removing a regular file keeps a tree. *)
Lemma tree_delete_file fs p m :
  tree fs → stat fs p = Some (File m) →
  tree (with_nodes fs (delete p (nodes fs))).
Proof.
  intros Ht Hp. apply tree_nodes. intros x q Hs.
  cbn [nodes with_nodes] in Hs. rewrite lookup_delete in Hs.
  case_decide as Hne; [by destruct Hs|].
  pose proof (Ht (x :: q) Hs) as Hq. cbn [parent] in Hq.
  apply is_dir_stat. apply is_dir_stat in Hq. rewrite stat_delete.
  destruct q as [|y q]; [done|]. case_decide as Hpq; [|done]. congruence.
Qed.

Lemma os_mkdir_tree fs fs' p :
  tree fs → os_mkdir fs p = Ok fs' → tree fs'.
Proof.
  intros Ht (Hn & Hpar & _ & ->)%os_mkdir_Ok.
  apply tree_insert; [done|by apply is_dir_stat|].
  unfold is_dir. by rewrite Hn.
Qed.

Lemma mkdir_parents_tree p : ∀ fs fs' r,
  tree fs → mkdir_parents fs p = (fs', r) → tree fs'.
Proof.
  induction p as [|x p IH]; intros fs fs' r Ht H.
  - simpl in H. by simplify_eq.
  - simpl in H. destruct (os_mkdir fs (x :: p)) as [fs1|e] eqn:E.
    { simplify_eq. by eapply os_mkdir_tree. }
    assert (fs' = fs ∨ e = ENOENT) as Hcase.
    { destruct e; try (by right);
        destruct (is_dir fs (x :: p)); simplify_eq; by left. }
    destruct Hcase as [Hcase|Hcase]; [by subst fs'|subst e].
    destruct (mkdir_parents fs p) as [fs1 [[]|e1]] eqn:E1.
    + pose proof (IH _ _ _ Ht E1) as Ht1. unfold mkdir_exist_ok in H.
      destruct (os_mkdir fs1 (x :: p)) as [fs2|e2] eqn:E2.
      * simplify_eq. by eapply os_mkdir_tree.
      * destruct e2; try (destruct (is_dir fs1 (x :: p))); by simplify_eq.
    + simplify_eq. by eapply IH.
Qed.

Lemma shutil_move_tree fs fs' src dst :
  tree fs → shutil_move fs src dst = Ok fs' → tree fs'.
Proof.
  intros Ht H. unfold shutil_move in H.
  destruct (stat fs src) as [[|m]|] eqn:Es; [done| |done].
  set (target := real_dst fs src dst) in *.
  destruct (is_dir fs dst && path_exists fs target) eqn:Eb; [done|].
  unfold check_parent in H.
  destruct (stat fs (parent target)) as [[|m']|] eqn:Ep; [|done..].
  destruct (denied fs (parent target)); [done|].
  destruct (denied fs (parent src)); [done|]. simplify_eq.
  assert (is_dir fs target = false) as Hnd.
  { unfold target, real_dst in *. destruct (is_dir fs dst) eqn:Ed; [|done].
    cbn [andb] in Eb. apply path_exists_false in Eb.
    unfold is_dir. by rewrite Eb. }
  pose proof (tree_delete_file _ _ _ Ht Es) as Ht1.
  change (tree (with_nodes (with_nodes fs (delete src (nodes fs)))
            (<[target := File m]>
               (nodes (with_nodes fs (delete src (nodes fs))))))).
  apply tree_insert; [exact Ht1| |].
  - apply is_dir_stat. rewrite stat_delete.
    destruct (parent target) as [|y q] eqn:E; [done|].
    case_decide; [congruence|done].
  - unfold is_dir in *. rewrite stat_delete.
    destruct target as [|y q]; [done|]. by case_decide.
Qed.

Lemma shutil_copy2_tree fs fs' src dst :
  tree fs → shutil_copy2 fs src dst = Ok fs' → tree fs'.
Proof.
  intros Ht H. unfold shutil_copy2 in H.
  destruct (stat fs src) as [[|m]|] eqn:Es; [done| |done].
  set (target := real_dst fs src dst) in *.
  destruct (bool_decide (target = src)); [done|].
  destruct (is_dir fs target) eqn:Hnd; [done|].
  unfold check_parent in H.
  destruct (stat fs (parent target)) as [[|m']|] eqn:Ep; [|done..].
  destruct (denied fs (parent target)); [done|]. simplify_eq.
  apply tree_insert; [done|by apply is_dir_stat|done].
Qed.

(** On a tree every ancestor of a directory is a directory. *)
Lemma tree_ancestors fs p q :
  tree fs → is_dir fs p = true → q `suffix_of` p → is_dir fs q = true.
Proof.
  intros Ht. destruct q as [|y q]; [done|].
  induction p as [|x p IH]; intros Hd Hq.
  - by apply suffix_nil_inv in Hq.
  - apply suffix_cons_inv in Hq as [->|Hq]; [done|].
    apply IH; [|done]. apply (Ht (x :: p)). apply is_dir_stat in Hd.
    rewrite Hd. by eexists.
Qed.

(** On a tree a regular file anywhere on the way makes [mkdir] fail. *)
Lemma obstacle_file fs p q :
  tree fs → q `suffix_of` p → is_file fs q = true →
  is_Some (obstacle fs p).
Proof.
  intros Ht. destruct q as [|y q]; [done|].
  induction p as [|x p IH]; intros Hq Hf.
  { by apply suffix_nil_inv in Hq. }
  apply is_file_stat in Hf as [m Hm]. cbn [obstacle].
  destruct (stat fs (x :: p)) as [[|m1]|] eqn:Ep.
  - assert (is_dir fs (y :: q) = true) as Hd.
    { eapply tree_ancestors; [done| |done]. by apply is_dir_stat. }
    apply is_dir_stat in Hd. congruence.
  - by eexists.
  - apply suffix_cons_inv in Hq as [Heq|Hq]; [simplify_eq; congruence|].
    destruct (stat fs p) as [[|m1]|] eqn:Epp.
    + assert (is_dir fs (y :: q) = true) as Hd.
      { eapply tree_ancestors; [done| |done]. by apply is_dir_stat. }
      apply is_dir_stat in Hd. congruence.
    + by eexists.
    + destruct (IH Hq) as [e He]; [apply is_file_stat; eauto|].
      rewrite He. by eexists.
Qed.

End FsFacts.

(** ** The conflict loop *)

Section Collision.

Variables (fs : filesystem) (date_folder file_path : path).

#[local] Abbreviation probe := (probed date_folder file_path).

Lemma probed_inj : Inj (=) (=) probe.
Proof.
  intros [|j] [|k] H; unfold probed, joinpath in H; try done.
  - injection H as H. symmetry in H. by apply numbered_ne_name in H.
  - injection H as H. by apply numbered_ne_name in H.
  - injection H as H. by apply numbered_inj in H.
Qed.

(** From turn [k] the loop walks over the names that exist and stops at
    the first one that does not, [d] turns later. *)
Lemma conflict_loop_run (d : nat) : ∀ k fuel,
  path_exists fs (probe (k + d)) = false →
  (∀ j, k ≤ j < k + d → path_exists fs (probe j) = true) →
  d < fuel →
  conflict_loop fuel fs date_folder (stem file_path) (suffix file_path)
    (probe k) (S k) = Some (probe (k + d), S (k + d)).
Proof.
  induction d as [|d IH]; intros k fuel Hfree Hbusy Hfuel.
  - destruct fuel as [|fuel]; [lia|]. simpl.
    rewrite Nat.add_0_r in *. by rewrite Hfree.
  - destruct fuel as [|fuel]; [lia|]. simpl.
    rewrite (Hbusy k) by lia.
    replace (k + S d) with (S k + d) in * by lia.
    apply (IH (S k)); [done| |lia]. intros j Hj. apply Hbusy. lia.
Qed.

(** Some name among the first [size + 1] the loop tries is free. *)
Lemma free_name_exists :
  ∃ k, k ≤ size (nodes fs) ∧ path_exists fs (probe k) = false.
Proof.
  destruct (decide (Exists (λ k, path_exists fs (probe k) = false)
                      (seq 0 (S (size (nodes fs)))))) as [Hyes|Hno].
  { apply Exists_exists in Hyes as (k & Hk & Hf). exists k. split; [|done]. apply elem_of_seq in Hk. lia. }
  exfalso.
  set (l := probe <$> seq 0 (S (size (nodes fs)))).
  assert (NoDup l) as Hnd.
  { apply NoDup_fmap_2; [apply probed_inj|apply NoDup_seq]. }
  assert (list_to_set l ⊆ dom (nodes fs)) as Hsub.
  { intros p Hp. apply elem_of_list_to_set, list_elem_of_fmap in Hp as (k & -> & Hk).
    apply elem_of_dom. destruct (path_exists fs (probe k)) eqn:E.
    - apply path_exists_stat in E. by destruct k.
    - destruct Hno. apply Exists_exists. eauto. }
  apply subseteq_size in Hsub.
  rewrite size_list_to_set, size_dom in Hsub by done.
  unfold l in Hsub. rewrite length_fmap, length_seq in Hsub. lia.
Qed.

Lemma first_free_name :
  ∃ k, k ≤ size (nodes fs) ∧ path_exists fs (probe k) = false
       ∧ ∀ j, j < k → path_exists fs (probe j) = true.
Proof.
  destruct free_name_exists as (n & Hn & Hfree).
  revert Hn Hfree. generalize (size (nodes fs)). intros bound.
  induction (lt_wf n) as [n _ IH]. intros Hn Hfree.
  destruct (decide (Exists (λ j, path_exists fs (probe j) = false) (seq 0 n)))
    as [Hyes|Hno].
  - apply Exists_exists in Hyes as (j & Hj & Hf).
    apply elem_of_seq in Hj. apply (IH j); [lia|lia|done].
  - exists n. repeat split; [done..|]. intros j Hj.
    destruct (path_exists fs (probe j)) eqn:E; [done|].
    destruct Hno. apply Exists_exists. exists j. split; [|done].
    apply elem_of_seq. lia.
Qed.

(** The loop ends, on every filesystem, with the first free name. *)
Lemma handle_conflicts_first_free (k : nat) :
  path_exists fs (probe k) = false →
  (∀ j, j < k → path_exists fs (probe j) = true) →
  ∀ fuel, k < fuel →
    handle_conflicts fuel fs date_folder file_path = Some (probe k, S k).
Proof.
  intros Hfree Hbusy fuel Hfuel. unfold handle_conflicts.
  apply (conflict_loop_run k 0 fuel); [done| |done].
  intros j Hj. apply Hbusy. lia.
Qed.

Lemma handle_conflicts_total :
  ∃ k, k ≤ size (nodes fs) ∧ path_exists fs (probe k) = false
       ∧ (∀ j, j < k → path_exists fs (probe j) = true)
       ∧ ∀ fuel, enough_fuel fs ≤ fuel →
           handle_conflicts fuel fs date_folder file_path = Some (probe k, S k).
Proof.
  destruct first_free_name as (k & Hk & Hfree & Hbusy).
  exists k. repeat split; try done. intros fuel Hfuel.
  apply handle_conflicts_first_free; try done. unfold enough_fuel in Hfuel. lia.
Qed.

(** Whatever the loop returns does not exist. *)
Lemma handle_conflicts_free (fuel : nat) (dest : path) (counter : nat) :
  handle_conflicts fuel fs date_folder file_path = Some (dest, counter) →
  path_exists fs dest = false ∧ dest = probe (counter - 1) ∧ 1 ≤ counter.
Proof.
  unfold handle_conflicts.
  change (date_folder </> name file_path) with (probe 0).
  generalize 0 at 1 2 as k. revert dest counter.
  induction fuel as [|fuel IH]; intros dest counter k H; [done|].
  simpl in H. destruct (path_exists fs (probe k)) eqn:E.
  - by apply (IH _ _ (S k)) in H.
  - injection H as <- <-. simpl. rewrite Nat.sub_0_r. repeat split; [done|lia].
Qed.

(** [move_file_safely] of [organize_files.py] looks for a destination the
    same way. *)
Lemma rename_loop_conflict_loop (fuel : nat) : ∀ k,
  rename_loop fuel fs (stem file_path) (suffix file_path) (probe k) (S k) =
  conflict_loop fuel fs date_folder (stem file_path) (suffix file_path)
    (probe k) (S k).
Proof.
  induction fuel as [|fuel IH]; intros k; [reflexivity|]. simpl.
  destruct (path_exists fs (probe k)); [|reflexivity].
  assert (parent (probe k) = date_folder) as -> by by destruct k.
  apply (IH (S k)).
Qed.

Lemma safe_destination_handle_conflicts (fuel : nat) :
  0 < fuel →
  safe_destination fuel fs (date_folder </> name file_path) =
  handle_conflicts fuel fs date_folder file_path.
Proof.
  intros Hfuel. unfold safe_destination, handle_conflicts.
  destruct (path_exists fs (date_folder </> name file_path)) eqn:E.
  - apply (rename_loop_conflict_loop fuel 0).
  - destruct fuel as [|fuel]; [lia|]. simpl. by rewrite E.
Qed.

End Collision.

(** [move_file_safely] ends too, given the same fuel. *)
Lemma move_file_safely_total (fs : filesystem) (source : path) (x : string)
    (q : path) (fuel : nat) :
  enough_fuel fs ≤ fuel →
  ∃ res, move_file_safely fuel fs source (q </> x) = Some res.
Proof.
  intros Hfuel. unfold move_file_safely.
  change (q </> x) with (q </> name [x]).
  rewrite safe_destination_handle_conflicts by (unfold enough_fuel in Hfuel; lia).
  destruct (handle_conflicts_total fs q [x]) as (k & _ & _ & _ & ->); [|done].
  destruct (shutil_move fs source _); eauto.
Qed.


(** ** A crowded directory *)

Section Crowded.

Variables (n : nat) (date_folder file_path : path) (m : file_data).

#[local] Abbreviation probe := (probed date_folder file_path).
#[local] Abbreviation busy := (Samples.crowded n date_folder file_path m).

Lemma crowded_exists (k : nat) :
  path_exists busy (probe k) = bool_decide (k ≤ n).
Proof.
  unfold path_exists.
  assert (stat busy (probe k) = nodes busy !! probe k) as -> by by destruct k.
  unfold Samples.crowded. cbn [nodes]. destruct (_ !! probe k) as [x|] eqn:E.
  - apply elem_of_list_to_map_2, list_elem_of_fmap in E as (j & Hj & Hin).
    injection Hj as Hj _. apply probed_inj in Hj as <-.
    apply elem_of_seq in Hin. symmetry. apply bool_decide_eq_true. lia.
  - apply not_elem_of_list_to_map_2 in E. symmetry. apply bool_decide_eq_false.
    intros Hk. apply E. apply list_elem_of_fmap. exists (probe k, File m).
    split; [done|]. apply list_elem_of_fmap. exists k. split; [done|].
    apply elem_of_seq. lia.
Qed.

Lemma crowded_size : size (nodes busy) = S n.
Proof.
  unfold Samples.crowded. cbn [nodes]. rewrite map_size_list_to_map.
  - by rewrite length_fmap, length_seq.
  - rewrite <- list_fmap_compose.
    apply NoDup_fmap_2; [|apply NoDup_seq].
    intros j k H. by apply probed_inj in H.
Qed.

(** In a directory where the name and its first [n] numbered names are
    taken, the loop goes through all of them and returns the next one. *)
Lemma crowded_handle_conflicts :
  handle_conflicts (enough_fuel busy) busy date_folder file_path =
  Some (probe (S n), S (S n)).
Proof.
  apply handle_conflicts_first_free.
  - rewrite crowded_exists. apply bool_decide_eq_false. lia.
  - intros j Hj. rewrite crowded_exists. apply bool_decide_eq_true. lia.
  - unfold enough_fuel. rewrite crowded_size. lia.
Qed.

End Crowded.


(** ** Dated directories *)

Section DatePath.

Implicit Types (fs : filesystem) (base_dir : path) (d : datetime).

Lemma create_date_path_Ok fs base_dir d fs' p :
  create_date_path fs base_dir d = (fs', Ok p) →
  p = date_path base_dir d
  ∧ mkdir_parents fs (date_path base_dir d) = (fs', Ok tt).
Proof.
  unfold create_date_path.
  destruct (mkdir_parents fs (date_path base_dir d)) as [fs1 [[]|e]] eqn:E;
    intros H; simplify_eq. done.
Qed.

Lemma create_date_path_Raise fs base_dir d fs' e :
  create_date_path fs base_dir d = (fs', Raise e) →
  mkdir_parents fs (date_path base_dir d) = (fs', Raise e).
Proof.
  unfold create_date_path.
  destruct (mkdir_parents fs (date_path base_dir d)) as [fs1 [[]|e1]] eqn:E;
    intros H; by simplify_eq.
Qed.

Lemma create_date_path_id fs base_dir d :
  is_dir fs (date_path base_dir d) = true →
  create_date_path fs base_dir d = (fs, Ok (date_path base_dir d)).
Proof.
  intros H. unfold create_date_path. by rewrite mkdir_parents_id.
Qed.

End DatePath.



(** ** Routing *)

Section Routing.

Variable strptime : string → option datetime.
Variable TAGS : Z → option string.

#[local] Abbreviation get_photo_date := (get_photo_date strptime TAGS).
#[local] Abbreviation get_exif_date := (get_exif_date strptime TAGS).
#[local] Abbreviation route := (route strptime TAGS).
#[local] Abbreviation process := (process strptime TAGS).
#[local] Abbreviation process_all := (process_all strptime TAGS).

Lemma route_unfold fs st dest_path file_path d src :
  get_photo_date fs file_path = Ok (d, src) →
  route fs st dest_path file_path =
  match create_date_path fs dest_path d with
  | (fs1, Raise e) => Some (fs1, count_source src st, Raise e)
  | (fs1, Ok date_folder) =>
      match handle_conflicts (enough_fuel fs1) fs1 date_folder file_path with
      | None => None
      | Some r => Some (fs1, count_source src st, Ok r)
      end
  end.
Proof. intros H. unfold PhotoSorter.route. by rewrite H. Qed.



Lemma get_exif_date_stat fs fs' file_path :
  stat fs' file_path = stat fs file_path →
  get_exif_date fs' file_path = get_exif_date fs file_path.
Proof. intros H. unfold PhotoSorter.get_exif_date. by rewrite H. Qed.

(** The date of a file depends on the filesystem through that file only. *)
Lemma get_photo_date_stat fs fs' file_path :
  stat fs' file_path = stat fs file_path →
  get_photo_date fs' file_path = get_photo_date fs file_path.
Proof.
  intros H. unfold PhotoSorter.get_photo_date, get_file_date.
  by rewrite (get_exif_date_stat _ _ _ H), H.
Qed.

(** A date is only found for a regular file. *)
Lemma get_photo_date_is_file fs file_path r :
  get_photo_date fs file_path = Ok r → ∃ m, stat fs file_path = Some (File m).
Proof.
  unfold PhotoSorter.get_photo_date, PhotoSorter.get_exif_date, get_file_date.
  destruct (stat fs file_path) as [[|m]|]; [done|eauto|done].
Qed.

(** [route] always ends: the loop never runs out of the fuel it is given. *)
Lemma route_total fs st dest_path file_path :
  ∃ fs1 st1 r, route fs st dest_path file_path = Some (fs1, st1, r).
Proof.
  unfold PhotoSorter.route.
  destruct (get_photo_date fs file_path) as [[d src]|e]; [|eauto].
  destruct (create_date_path fs dest_path d) as [fs1 [folder|e]]; [|eauto].
  destruct (handle_conflicts_total fs1 folder file_path) as (k & _ & _ & _ & H).
  rewrite H by done. eauto.
Qed.

Lemma process_total copy_files dry_run dest_path s file_path :
  ∃ s', process copy_files dry_run dest_path s file_path = Some s'.
Proof.
  unfold PhotoSorter.process.
  destruct (is_file s.1 file_path); [|eauto].
  destruct (negb (is_supported_format file_path)); [eauto|].
  destruct (route_total s.1 (incr_total s.2) dest_path file_path)
    as (fs1 & st1 & r & ->).
  destruct r as [[dest c]|e]; [|eauto].
  destruct dry_run; [eauto|].
  destruct (transfer copy_files fs1 file_path dest); eauto.
Qed.

Lemma process_all_total copy_files dry_run dest_path walk : ∀ s,
  ∃ s', process_all copy_files dry_run dest_path s walk = Some s'.
Proof.
  induction walk as [|f walk IH]; intros s; simpl; [eauto|].
  destruct (process_total copy_files dry_run dest_path s f) as [s1 ->].
  apply IH.
Qed.


(** C6. Routing is deterministic: routing the same file to the same root
    again, on the filesystem the first routing left (its directories made,
    the file not yet moved), gives the same destination and the same
    [created] flag, and leaves that filesystem as it is. *)
Theorem route_deterministic (fs : filesystem) (st : stats)
    (dest_path file_path : path) (fs1 : filesystem) (st1 : stats)
    (r : path * nat) :
  route fs st dest_path file_path = Some (fs1, st1, Ok r) →
  route fs1 st dest_path file_path = Some (fs1, st1, Ok r)
  ∧ ∀ st', ∃ st1',
      route fs1 st' dest_path file_path = Some (fs1, st1', Ok r).
Proof.
  intros H.
  assert (∀ st', route fs1 st' dest_path file_path =
            match route fs st' dest_path file_path with
            | Some (_, st1', _) => Some (fs1, st1', Ok r)
            | None => None
            end) as Hagain.
  { intros st'. unfold PhotoSorter.route in H |- *.
    destruct (get_photo_date fs file_path) as [[d src]|e] eqn:Ed; [|done].
    destruct (create_date_path fs dest_path d) as [fs2 [folder|e]] eqn:Ec;
      [|done].
    destruct (handle_conflicts (enough_fuel fs2) fs2 folder file_path)
      as [r2|] eqn:Eh; [|done].
    injection H as -> _ ->.
    apply create_date_path_Ok in Ec as [-> Hm].
    destruct (get_photo_date_is_file _ _ _ Ed) as [m Hs].
    rewrite (get_photo_date_stat fs fs1), Ed.
    - rewrite create_date_path_id by by eapply mkdir_parents_is_dir.
      by rewrite Eh.
    - rewrite Hs. by eapply mkdir_parents_keeps. }
  split.
  - by rewrite Hagain, H.
  - intros st'. rewrite Hagain.
    destruct (route_total fs st' dest_path file_path) as (fs2 & st2 & r2 & ->).
    eauto.
Qed.


(** A transfer to a path that does not exist leaves every other entry
    alone, except the source of a move. *)
Lemma transfer_keeps copy_files fs fs' src dst q (n : node) :
  path_exists fs dst = false →
  transfer copy_files fs src dst = Ok fs' →
  stat fs q = Some n → q ≠ src → stat fs' q = Some n.
Proof.
  intros Hfree H Hq Hne.
  assert (q ≠ dst) as Hqd.
  { intros ->. apply path_exists_false in Hfree. congruence. }
  assert (real_dst fs src dst = dst) as Hreal.
  { unfold real_dst, is_dir. apply path_exists_false in Hfree.
    by rewrite Hfree. }
  unfold transfer, shutil_move, shutil_copy2 in H. rewrite Hreal in H.
  destruct (stat fs src) as [[|m]|]; try by destruct copy_files.
  destruct copy_files.
  - destruct (bool_decide (dst = src)); [done|].
    destruct (is_dir fs dst); [done|].
    destruct (check_parent fs dst); [|done]. injection H as <-.
    rewrite stat_insert. destruct q; [done|]. by case_decide.
  - destruct (is_dir fs dst && path_exists fs dst); [done|].
    destruct (check_parent fs dst); [|done].
    destruct (denied fs (parent src)); [done|]. injection H as <-.
    destruct q as [|x q]; [done|].
    rewrite stat_with_nodes, lookup_insert_ne, lookup_delete_ne by done.
    by rewrite <- stat_cons.
Qed.

(** One turn of the loop leaves a regular file of another format as it
    is. *)
Lemma process_keeps copy_files dry_run dest_path s s' file_path q m :
  process copy_files dry_run dest_path s file_path = Some s' →
  is_supported_format q = false →
  stat s.1 q = Some (File m) → stat s'.1 q = Some (File m).
Proof.
  intros H Hq Hs. unfold PhotoSorter.process in H.
  destruct (is_file s.1 file_path); [|by simplify_eq/=].
  destruct (is_supported_format file_path) eqn:Hsup; [|by simplify_eq/=].
  cbn [negb] in H. unfold PhotoSorter.route in H.
  destruct (get_photo_date s.1 file_path) as [[d src]|e]; [|by simplify_eq/=].
  destruct (create_date_path s.1 dest_path d) as [fs1 [folder|e]] eqn:Ec.
  - apply create_date_path_Ok in Ec as [-> Hm].
    pose proof (mkdir_parents_keeps _ _ _ _ _ _ Hm Hs) as Hs1.
    destruct (handle_conflicts _ fs1 _ file_path) as [[dest c]|] eqn:Eh;
      [|done].
    apply handle_conflicts_free in Eh as (Hfree & _).
    destruct dry_run; [by simplify_eq|].
    destruct (transfer copy_files fs1 file_path dest) as [fs2|e] eqn:Et;
      simplify_eq; [|done].
    eapply transfer_keeps; [done..|]. intros ->. congruence.
  - apply create_date_path_Raise in Ec. simplify_eq.
    by eapply mkdir_parents_keeps.
Qed.

Lemma process_all_keeps copy_files dry_run dest_path walk q m : ∀ s s',
  process_all copy_files dry_run dest_path s walk = Some s' →
  is_supported_format q = false →
  stat s.1 q = Some (File m) → stat s'.1 q = Some (File m).
Proof.
  induction walk as [|f walk IH]; intros s s' H Hq Hs; simpl in H.
  - by simplify_eq/=.
  - destruct (process copy_files dry_run dest_path s f) as [s1|] eqn:E; [|done].
    eapply IH; [done..|]. by eapply process_keeps.
Qed.

(** C9. The supported formats are exactly six suffixes: a file is taken
    for a photo if and only if its suffix is one of [.jpg], [.jpeg],
    [.raf], [.JPG], [.JPEG], [.RAF]. Another casing, such as [.Jpg] or
    [.jPG], is not supported: the loop counts such a file and passes on,
    and no run routes, moves or changes it. *)
Theorem supported_format_exact (file_path : path) :
  (is_supported_format file_path = true ↔
     suffix file_path = ".jpg" ∨ suffix file_path = ".jpeg"
     ∨ suffix file_path = ".raf" ∨ suffix file_path = ".JPG"
     ∨ suffix file_path = ".JPEG" ∨ suffix file_path = ".RAF")
  ∧ is_supported_format ["holiday.Jpg"; "in"] = false
  ∧ is_supported_format ["holiday.jPG"; "in"] = false
  ∧ (∀ copy_files dry_run dest_path fs st,
       is_supported_format file_path = false →
       is_file fs file_path = true →
       process copy_files dry_run dest_path (fs, st) file_path =
       Some (fs, incr_total st))
  ∧ (∀ copy_files dry_run dest_path walk s s' m,
       is_supported_format file_path = false →
       stat s.1 file_path = Some (File m) →
       process_all copy_files dry_run dest_path s walk = Some s' →
       stat s'.1 file_path = Some (File m)).
Proof.
  split; [|split; [reflexivity|split; [reflexivity|split]]].
  - unfold is_supported_format, supported_extensions.
    rewrite bool_decide_eq_true. rewrite !elem_of_cons, elem_of_nil. tauto.
  - intros copy_files dry_run dest_path fs st Hno Hfile.
    unfold PhotoSorter.process. cbn [fst snd]. by rewrite Hfile, Hno.
  - intros copy_files dry_run dest_path walk s s' m Hno Hs H.
    by eapply process_all_keeps.
Qed.


(** The sorter keeps the filesystem a tree. *)
Lemma process_tree copy_files dry_run dest_path s s' file_path :
  tree s.1 → process copy_files dry_run dest_path s file_path = Some s' →
  tree s'.1.
Proof.
  intros Ht H. unfold PhotoSorter.process in H.
  destruct (is_file s.1 file_path); [|by simplify_eq/=].
  destruct (negb (is_supported_format file_path)); [by simplify_eq/=|].
  unfold PhotoSorter.route in H.
  destruct (get_photo_date s.1 file_path) as [[d src]|e]; [|by simplify_eq/=].
  unfold create_date_path in H.
  destruct (mkdir_parents s.1 (date_path dest_path d)) as [fs1 r] eqn:Em.
  pose proof (mkdir_parents_tree _ _ _ _ Ht Em) as Ht1.
  destruct r as [[]|e]; [|by simplify_eq/=].
  destruct (handle_conflicts _ fs1 _ file_path) as [[dest c]|]; [|done].
  destruct dry_run; [by simplify_eq/=|].
  destruct (transfer copy_files fs1 file_path dest) as [fs2|e] eqn:Et;
    [|by simplify_eq/=].
  simplify_eq/=. unfold transfer in Et.
  destruct copy_files; [by eapply shutil_copy2_tree|by eapply shutil_move_tree].
Qed.

Lemma process_all_tree copy_files dry_run dest_path walk : ∀ s s',
  tree s.1 → process_all copy_files dry_run dest_path s walk = Some s' →
  tree s'.1.
Proof.
  induction walk as [|f walk IH]; intros s s' Ht H; simpl in H.
  - by simplify_eq.
  - destruct (process copy_files dry_run dest_path s f) as [s1|] eqn:E; [|done].
    eapply IH; [|done]. by eapply process_tree.
Qed.


(** A whole run ends, whatever the walk and the filesystem. *)
Lemma organize_photos_total walk source_dir destination_dir copy_files
    dry_run fs :
  ∃ res, organize_photos strptime TAGS walk source_dir destination_dir
           copy_files dry_run fs = Some res.
Proof.
  unfold PhotoSorter.organize_photos.
  destruct (negb (path_exists fs source_dir)); [eauto|].
  destruct (mkdir_parents fs destination_dir) as [fs1 [[]|e]]; [|eauto].
  destruct (process_all_total copy_files dry_run destination_dir walk
              (fs1, stats0)) as [[fs2 st] ->].
  eauto.
Qed.

End Routing.

(** ** The date of a photo *)

Section PhotoDate.

Variable strptime : string → option datetime.
Variable TAGS : Z → option string.

#[local] Abbreviation get_photo_date := (get_photo_date strptime TAGS).
#[local] Abbreviation get_exif_date := (get_exif_date strptime TAGS).
#[local] Abbreviation method1 := (method1 strptime TAGS).
#[local] Abbreviation method2 := (method2 strptime).
#[local] Abbreviation pil_loop := (pil_loop strptime TAGS).
#[local] Abbreviation date_field := (date_field TAGS).

Lemma parse_Returned (value : string) (d : datetime) :
  parse strptime value = Returned d ↔ strptime value = Some d.
Proof. unfold parse. destruct (strptime value); naive_solver. Qed.

(** What the loop of method 1 returns was parsed from an item with one of
    the two tag names. *)
Lemma pil_loop_Returned (items : list (Z * string)) (d : datetime) :
  pil_loop items = Returned d →
  ∃ tag_id value, (tag_id, value) ∈ items
    ∧ (TAGS tag_id = Some "DateTimeOriginal" ∨ TAGS tag_id = Some "DateTime")
    ∧ strptime value = Some d.
Proof.
  induction items as [|[tag_id value] items IH]; intros H; [done|].
  simpl in H. repeat case_bool_decide.
  - apply parse_Returned in H. exists tag_id, value.
    split; [apply list_elem_of_here|]. eauto.
  - apply parse_Returned in H. exists tag_id, value.
    split; [apply list_elem_of_here|]. eauto.
  - destruct (IH H) as (i & v & Hin & Htag & Hv). exists i, v.
    split; [by apply list_elem_of_further|done].
Qed.

Lemma method1_Returned (m : file_data) (d : datetime) :
  method1 m = Returned d →
  ∃ value, date_field m value ∧ strptime value = Some d.
Proof.
  unfold PhotoSorter.method1. destruct (pil_exif m) as [items|] eqn:E; [|done].
  intros H. assert (pil_loop items = Returned d) as Hl by by destruct items.
  apply pil_loop_Returned in Hl as (i & v & Hin & Htag & Hv).
  exists v. split; [|done]. left. eauto.
Qed.

Lemma method2_Returned (m : file_data) (d : datetime) :
  method2 m = Returned d →
  ∃ value, date_field m value ∧ strptime value = Some d.
Proof.
  unfold PhotoSorter.method2. destruct (exifread_tags m) as [tags|] eqn:E; [|done].
  destruct (tags !! "EXIF DateTimeOriginal") as [v|] eqn:E1.
  { intros H%parse_Returned. exists v. split; [|done]. right. eauto. }
  destruct (tags !! "Image DateTime") as [v|] eqn:E2; [|done].
  intros H%parse_Returned. exists v. split; [|done]. right. eauto.
Qed.

(** A date read from the metadata was parsed from one of its date
    fields. *)
Lemma get_exif_date_Some (fs : filesystem) (file_path : path) (d : datetime) :
  get_exif_date fs file_path = Some d →
  ∃ m value, stat fs file_path = Some (File m)
    ∧ date_field m value ∧ strptime value = Some d.
Proof.
  unfold PhotoSorter.get_exif_date.
  destruct (stat fs file_path) as [[|m]|]; [done| |done].
  destruct (method1 m) as [d1| |] eqn:E1.
  - intros H. simplify_eq. apply method1_Returned in E1 as (v & ? & ?). eauto.
  - destruct (method2 m) as [d2| |] eqn:E2; [|done..].
    intros H. simplify_eq. apply method2_Returned in E2 as (v & ? & ?). eauto.
  - destruct (method2 m) as [d2| |] eqn:E2; [|done..].
    intros H. simplify_eq. apply method2_Returned in E2 as (v & ? & ?). eauto.
Qed.



(** Method 2 does prefer the capture time: with [EXIF DateTimeOriginal]
    present, [Image DateTime] is not looked at. *)
Lemma method2_prefers_original (m : file_data) (tags : gmap string string)
    (value : string) :
  exifread_tags m = Some tags →
  tags !! "EXIF DateTimeOriginal" = Some value →
  method2 m = parse strptime value.
Proof. intros Ht Hv. unfold PhotoSorter.method2. by rewrite Ht, Hv. Qed.

(** Method 1 does not: whichever of the two tags comes first in the
    dictionary decides, also when it is the generic one. *)
Lemma pil_loop_first_date_tag (tag_id : Z) (value : string)
    (rest : list (Z * string)) :
  TAGS tag_id = Some "DateTime" →
  pil_loop ((tag_id, value) :: rest) = parse strptime value.
Proof.
  intros Ht. simpl. rewrite Ht.
  rewrite bool_decide_eq_false_2 by done. by rewrite bool_decide_eq_true_2.
Qed.

End PhotoDate.

(** ** The dates and routes of sample files *)

Example strptime_sample :
  Samples.strptime "2024:03:07 10:00:00" = Some (Samples.date 2024 3 7 10 0 0)
  ∧ Samples.strptime "2024-03-07 10:00:00" = None
  ∧ Samples.strptime "2024:13:07 10:00:00" = None.
Proof. repeat split; vm_compute; reflexivity. Qed.

(** C4 on the code: PIL lists the generic [DateTime] (tag 306) before
    [DateTimeOriginal] (tag 36867); both parse, and method 1 returns the
    generic one, 2024-03-08 09:00:00, not the capture time
    2024-03-07 10:00:00. *)
Lemma generic_date_shadows_capture_time :
  get_photo_date Samples.strptime Samples.TAGS
    (Samples.with_file Samples.empty_fs ["IMG_01.JPG"; "in"] Samples.two_dates)
    ["IMG_01.JPG"; "in"] =
  Ok (Samples.date 2024 3 8 9 0 0, EXIF).
Proof. vm_compute. reflexivity. Qed.



Lemma route_deterministic_witness :
  ∃ fs1 st1,
    route Samples.strptime Samples.TAGS Samples.inbox stats0 ["out"]
      ["IMG_01.JPG"; "in"] =
    Some (fs1, st1, Ok (["IMG_01.JPG"; "05"; "11"; "2023"; "out"], 1))
    ∧ route Samples.strptime Samples.TAGS fs1 stats0 ["out"]
        ["IMG_01.JPG"; "in"] =
      Some (fs1, st1, Ok (["IMG_01.JPG"; "05"; "11"; "2023"; "out"], 1)).
Proof.
  destruct (route Samples.strptime Samples.TAGS Samples.inbox stats0 ["out"]
              ["IMG_01.JPG"; "in"]) as [[[fs1 st1] r]|] eqn:E.
  - assert (r = Ok (["IMG_01.JPG"; "05"; "11"; "2023"; "out"], 1)) as ->.
    { apply (f_equal (fmap snd)) in E. vm_compute in E. by injection E as <-. }
    exists fs1, st1. split; [reflexivity|].
    exact (proj1 (route_deterministic Samples.strptime Samples.TAGS _ _ _ _ _ _ _ E)).
  - vm_compute in E. discriminate.
Defined.

(** The end-to-end case of the specification: [IMG_01.JPG] with the EXIF
    date 2023-11-05T08:30:00, an empty root [out]. *)
Example route_img_01 :
  snd <$> route Samples.strptime Samples.TAGS Samples.inbox stats0 ["out"]
            ["IMG_01.JPG"; "in"] =
  Some (Ok (["IMG_01.JPG"; "05"; "11"; "2023"; "out"], 1))
  ∧ decision (["IMG_01.JPG"; "05"; "11"; "2023"; "out"], 1) =
    {| destinationPath := ["IMG_01.JPG"; "05"; "11"; "2023"; "out"];
       created := false |}.
Proof. split; vm_compute; reflexivity. Qed.

(** The collision case of the specification: with
    [root/2024/03/07/photo.jpg] in place, a second [photo.jpg] of that day
    goes to [photo_1.jpg] and a third to [photo_2.jpg]. *)
Example route_three_photos :
  (λ s, (is_file s.1 ["photo.jpg"; "07"; "03"; "2024"; "root"],
         is_file s.1 ["photo_1.jpg"; "07"; "03"; "2024"; "root"],
         is_file s.1 ["photo_2.jpg"; "07"; "03"; "2024"; "root"],
         path_exists s.1 ["photo.jpg"; "a"], path_exists s.1 ["photo.jpg"; "b"],
         processed s.2, exif_used s.2, errors s.2)) <$>
    process_all Samples.strptime Samples.TAGS false false ["root"]
      (Samples.three_photos, stats0) [["photo.jpg"; "a"]; ["photo.jpg"; "b"]] =
  Some (true, true, true, false, false, 2, 2, 0).
Proof. vm_compute. reflexivity. Qed.

Example conflict_photo_jpg :
  decision <$>
    handle_conflicts (enough_fuel Samples.three_photos) Samples.three_photos
      ["07"; "03"; "2024"; "root"] ["photo.jpg"; "a"] =
  Some {| destinationPath := ["photo_1.jpg"; "07"; "03"; "2024"; "root"];
          created := true |}.
Proof. vm_compute. reflexivity. Qed.

(** A regular file where a directory is needed: [mkdir] raises, the loop
    counts the error and leaves the photo where it is. *)
Example route_file_in_the_way :
  (create_date_path Samples.file_in_the_way ["out"]
     (Samples.date 2023 11 5 8 30 0)).2 = Raise ENOTDIR
  ∧ (λ s, (is_file s.1 ["IMG_01.JPG"; "in"], processed s.2, errors s.2)) <$>
      process Samples.strptime Samples.TAGS false false ["out"]
        (Samples.file_in_the_way, stats0) ["IMG_01.JPG"; "in"] =
    Some (true, 0, 1).
Proof. split; vm_compute; reflexivity. Qed.

(** A root the process may not write in. *)
Example route_read_only_root :
  (create_date_path Samples.read_only_root ["out"]
     (Samples.date 2023 11 5 8 30 0)).2 = Raise EACCES.
Proof. vm_compute. reflexivity. Qed.

(** ** The string replacer *)

Section Substrings.

Context {A : Type} `{EqDecision A}.

Implicit Types (s sub old new : list A).

Lemma prefix_of_spec sub s :
  PyStr.prefix_of sub s = true ↔ ∃ b, s = sub ++ b.
Proof.
  revert s. induction sub as [|a sub IH]; intros s; simpl.
  - split; [eauto|done].
  - destruct s as [|c s].
    + split; [done|]. by intros [b Hb].
    + rewrite andb_true_iff, bool_decide_eq_true, IH. split.
      * intros [-> [b ->]]. eauto.
      * intros [b Hb]. simplify_eq/=. eauto.
Qed.

(** [contains] is the substring test. *)
Lemma contains_spec sub s :
  PyStr.contains sub s = true ↔ ∃ a b, s = a ++ sub ++ b.
Proof.
  induction s as [|c s IH]; simpl.
  - rewrite orb_false_r, prefix_of_spec. split.
    + intros [b Hb]. by exists [], b.
    + intros (a & b & Hab). destruct a; [eauto|done].
  - rewrite orb_true_iff, prefix_of_spec, IH. split.
    + intros [[b Hb]|(a & b & ->)]; [by exists [], b|by exists (c :: a), b].
    + intros (a & b & Hab). destruct a as [|x a]; [left; eauto|right].
      simplify_eq/=. eauto.
Qed.

Lemma replace_go_absent old new s :
  PyStr.contains old s = false → PyStr.replace_go old new 0 s = s.
Proof.
  induction s as [|c s IH]; intros H; [reflexivity|].
  simpl in H. apply orb_false_iff in H as [Hp Hc].
  cbn [PyStr.replace_go]. rewrite Hp. f_equal. by apply IH.
Qed.

(** Where the searched string does not occur, [replace] changes nothing:
    the test [search_str in content] only spares the write. *)
Lemma replace_absent old new s :
  PyStr.contains old s = false → PyStr.replace old new s = s.
Proof.
  intros H. destruct old as [|a old]; [by destruct s|].
  by apply replace_go_absent.
Qed.

End Substrings.

Section Replacer.

Variable guess_type : string → option string.
Variable decode_utf8 : list Byte.byte → option (list N).
Variable encode_utf8 : list N → option (list Byte.byte).

#[local] Abbreviation is_text_file :=
  (StringReplacer.is_text_file guess_type decode_utf8).
#[local] Abbreviation read_text := (StringReplacer.read_text decode_utf8).
#[local] Abbreviation replace_in_file_content :=
  (StringReplacer.replace_in_file_content guess_type decode_utf8 encode_utf8).

(** C10. For a file that is not detected as text, or whose content does
    not contain the search string, [replace_in_file_content] returns
    [False] and leaves the file as it is; the file is written, and [True]
    returned, only when the search string occurs in the content of a
    text file. *)
Theorem replace_leaves_other_files (f : StringReplacer.text_file)
    (search_str replace_str : list N) :
  (is_text_file f = false
   ∨ (∃ content, read_text f = Some content
        ∧ PyStr.contains search_str content = false) →
   replace_in_file_content f search_str replace_str = (f, false))
  ∧ (∀ f' b,
       replace_in_file_content f search_str replace_str = (f', b) →
       b = true ∨ f' ≠ f →
       is_text_file f = true
       ∧ ∃ content, read_text f = Some content
           ∧ PyStr.contains search_str content = true).
Proof.
  unfold StringReplacer.replace_in_file_content. split.
  - intros [Hno|(content & Hread & Hno)].
    + by rewrite Hno.
    + destruct (is_text_file f); [|done]. cbn [negb]. by rewrite Hread, Hno.
  - intros f' b H Hchanged.
    destruct (is_text_file f); cbn [negb] in H; [|naive_solver].
    split; [done|].
    destruct (read_text f) as [content|]; [|naive_solver].
    destruct (PyStr.contains search_str content) eqn:Ec; [|naive_solver].
    exists content. split; [reflexivity|exact Ec].
Qed.

End Replacer.

Lemma replace_leaves_other_files_witness :
  StringReplacer.replace_in_file_content Samples.guess_type
    Samples.decode_utf8 Samples.encode_utf8
    (Samples.text_file "photo.jpg" "hello world") (Samples.codes "hello")
    (Samples.codes "bye") =
  (Samples.text_file "photo.jpg" "hello world", false)
  ∧ StringReplacer.replace_in_file_content Samples.guess_type
      Samples.decode_utf8 Samples.encode_utf8
      (Samples.text_file "notes.txt" "hello world") (Samples.codes "help")
      (Samples.codes "bye") =
    (Samples.text_file "notes.txt" "hello world", false).
Proof.
  split.
  - apply (proj1 (replace_leaves_other_files Samples.guess_type
             Samples.decode_utf8 Samples.encode_utf8 _ _ _)).
    left. vm_compute. reflexivity.
  - apply (proj1 (replace_leaves_other_files Samples.guess_type
             Samples.decode_utf8 Samples.encode_utf8 _ _ _)).
    right. eexists. split; vm_compute; reflexivity.
Defined.

(** Where the string occurs the file is rewritten. *)
Example replace_in_notes :
  StringReplacer.replace_in_file_content Samples.guess_type
    Samples.decode_utf8 Samples.encode_utf8
    (Samples.text_file "notes.txt" "hello world, hello") (Samples.codes "hello")
    (Samples.codes "bye") =
  (Samples.text_file "notes.txt" "bye world, bye", true)
  ∧ StringReplacer.replace_in_file_content Samples.guess_type
      Samples.decode_utf8 Samples.encode_utf8
      (Samples.text_file "README" "hello") (Samples.codes "hello")
      (Samples.codes "bye") =
    (Samples.text_file "README" "bye", true).
Proof. split; vm_compute; reflexivity. Qed.

(** * Further properties of the scripts *)

(** ** The photo sorter: what a run does to the files *)

Section Transfers.

Implicit Types (fs : filesystem) (p q src dst : path).

(** A transfer to a free path puts the data of the source there, removes
    the source when it moves, and touches nothing else. *)
Lemma transfer_spec copy_files fs fs' src dst :
  path_exists fs dst = false →
  transfer copy_files fs src dst = Ok fs' →
  ∃ m, stat fs src = Some (File m)
       ∧ stat fs' dst = Some (File m)
       ∧ stat fs' src = (if copy_files then Some (File m) else None)
       ∧ ∀ q, q ≠ src → q ≠ dst → stat fs' q = stat fs q.
Proof.
  intros Hfree H. apply path_exists_false in Hfree as Hnone.
  assert (real_dst fs src dst = dst) as Hreal.
  { unfold real_dst, is_dir. by rewrite Hnone. }
  assert (dst ≠ []) as Hdst by (by intros ->).
  unfold transfer, shutil_move, shutil_copy2 in H. rewrite Hreal in H.
  destruct (stat fs src) as [[|m]|] eqn:Es; try by destruct copy_files.
  assert (src ≠ dst) as Hne by congruence.
  assert (src ≠ []) as Hsrc by (by intros ->).
  exists m. split; [done|]. destruct copy_files.
  - destruct (bool_decide (dst = src)); [done|].
    destruct (is_dir fs dst); [done|].
    destruct (check_parent fs dst); [|done]. injection H as <-.
    rewrite !stat_insert. destruct dst as [|x dst]; [done|].
    destruct src as [|y src]; [done|].
    rewrite !decide_True by done. rewrite decide_False by done.
    repeat split; [done|]. intros q Hq1 Hq2. rewrite stat_insert.
    destruct q; [done|]. by rewrite decide_False.
  - destruct (is_dir fs dst && path_exists fs dst); [done|].
    destruct (check_parent fs dst); [|done].
    destruct (denied fs (parent src)); [done|]. injection H as <-.
    destruct dst as [|x dst]; [done|]. destruct src as [|y src]; [done|].
    rewrite !stat_with_nodes, lookup_insert_eq.
    rewrite lookup_insert_ne, lookup_delete_eq by done.
    repeat split. intros q Hq1 Hq2. destruct q as [|z q]; [done|].
    rewrite stat_with_nodes, lookup_insert_ne, lookup_delete_ne by done.
    by rewrite <- stat_cons.
Qed.

End Transfers.

Section Runs.

Variable strptime : string → option datetime.
Variable TAGS : Z → option string.

#[local] Abbreviation get_photo_date := (get_photo_date strptime TAGS).
#[local] Abbreviation process := (process strptime TAGS).
#[local] Abbreviation process_all := (process_all strptime TAGS).
#[local] Abbreviation organize_photos := (organize_photos strptime TAGS).

(** The date of a regular file is always found. *)
Lemma get_photo_date_file fs file_path :
  is_file fs file_path = true → ∃ d src, get_photo_date fs file_path = Ok (d, src).
Proof.
  intros [m Hm]%is_file_stat.
  unfold PhotoSorter.get_photo_date, PhotoSorter.get_exif_date, get_file_date.
  rewrite Hm. destruct (method1 _ _ m); eauto; destruct (method2 _ m); eauto.
Qed.

(** The ways one turn of the loop can go. *)
Lemma process_cases copy_files dry_run dest_path s s' file_path :
  process copy_files dry_run dest_path s file_path = Some s' →
  (is_file s.1 file_path = false ∧ s' = s)
  ∨ (is_file s.1 file_path = true ∧ is_supported_format file_path = false
     ∧ s' = (s.1, incr_total s.2))
  ∨ (∃ m d src fs1 r,
       stat s.1 file_path = Some (File m)
       ∧ is_supported_format file_path = true
       ∧ get_photo_date s.1 file_path = Ok (d, src)
       ∧ mkdir_parents s.1 (date_path dest_path d) = (fs1, r)
       ∧ ((∃ e, r = Raise e
             ∧ s' = (fs1, incr_errors (count_source src (incr_total s.2))))
          ∨ (r = Ok tt ∧ ∃ k,
               path_exists fs1 (probed (date_path dest_path d) file_path k)
                 = false
               ∧ ((dry_run = true
                   ∧ s' = (fs1, incr_processed
                                  (count_source src (incr_total s.2))))
                  ∨ (dry_run = false ∧ ∃ fs2,
                       transfer copy_files fs1 file_path
                         (probed (date_path dest_path d) file_path k) = Ok fs2
                       ∧ s' = (fs2, incr_processed
                                      (count_source src (incr_total s.2))))
                  ∨ (dry_run = false ∧ ∃ e,
                       transfer copy_files fs1 file_path
                         (probed (date_path dest_path d) file_path k) = Raise e
                       ∧ s' = (fs1, incr_errors
                                      (count_source src (incr_total s.2)))))))).
Proof.
  intros H. unfold PhotoSorter.process in H.
  destruct (is_file s.1 file_path) eqn:Hfile; [|left; by simplify_eq].
  right. destruct (is_supported_format file_path) eqn:Hsup;
    [|left; by simplify_eq/=].
  right. cbn [negb] in H.
  apply is_file_stat in Hfile as Hm. destruct Hm as [m Hm].
  destruct (get_photo_date_file _ _ Hfile) as (d & src & Hd).
  unfold PhotoSorter.route in H. rewrite Hd in H.
  unfold create_date_path in H.
  destruct (mkdir_parents s.1 (date_path dest_path d)) as [fs1 r] eqn:Em.
  exists m, d, src, fs1, r. repeat (split; [done|]).
  destruct r as [[]|e]; [right|left; exists e; by simplify_eq].
  split; [done|].
  destruct (handle_conflicts _ fs1 _ file_path) as [[dest c]|] eqn:Eh; [|done].
  apply handle_conflicts_free in Eh as (Hfree & -> & _).
  exists (c - 1). split; [done|].
  destruct dry_run; [left; by simplify_eq|right].
  destruct (transfer copy_files fs1 file_path _) as [fs2|e] eqn:Et.
  - left. split; [done|]. exists fs2. by simplify_eq.
  - right. split; [done|]. exists e. by simplify_eq.
Qed.


(** What one turn does to the counters. *)
Lemma process_stats copy_files dry_run dest_path s s' file_path :
  process copy_files dry_run dest_path s file_path = Some s' →
  skipped s'.2 = skipped s.2
  ∧ exif_used s'.2 + file_date_used s'.2 + processed s.2 + errors s.2 =
    exif_used s.2 + file_date_used s.2 + processed s'.2 + errors s'.2
  ∧ processed s'.2 + errors s'.2 + total_files s.2 ≤
    processed s.2 + errors s.2 + total_files s'.2
  ∧ total_files s'.2 ≤ S (total_files s.2).
Proof.
  intros H. apply process_cases in H
    as [[_ ->]|[(_ & _ & ->)|(m & d & src & fs1 & r & _ & _ & _ & _ & H)]].
  - lia.
  - simpl. lia.
  - destruct H as [(e & _ & ->)|(_ & k & _ & [[_ ->]|[(_ & fs2 & _ & ->)
                                                    |(_ & e & _ & ->)]])];
      destruct src; simpl; lia.
Qed.

Lemma process_all_stats copy_files dry_run dest_path walk : ∀ s s',
  process_all copy_files dry_run dest_path s walk = Some s' →
  skipped s'.2 = skipped s.2
  ∧ exif_used s'.2 + file_date_used s'.2 + processed s.2 + errors s.2 =
    exif_used s.2 + file_date_used s.2 + processed s'.2 + errors s'.2
  ∧ processed s'.2 + errors s'.2 + total_files s.2 ≤
    processed s.2 + errors s.2 + total_files s'.2
  ∧ total_files s'.2 ≤ total_files s.2 + length walk.
Proof.
  induction walk as [|f walk IH]; intros s s' H; simpl in H.
  - simplify_eq. lia.
  - destruct (process copy_files dry_run dest_path s f) as [s1|] eqn:E; [|done].
    apply process_stats in E. apply IH in H. simpl. lia.
Qed.


(** What one turn does to the filesystem, by mode. *)
Lemma process_dry_run copy_files dest_path s s' file_path :
  process copy_files true dest_path s file_path = Some s' →
  ∀ q, stat s'.1 q = stat s.1 q
       ∨ (stat s.1 q = None ∧ stat s'.1 q = Some Dir).
Proof.
  intros H q. apply process_cases in H
    as [[_ ->]|[(_ & _ & ->)|(m & d & src & fs1 & r & _ & _ & _ & Hm & H)]];
    [by left..|].
  assert (s'.1 = fs1) as ->.
  { destruct H as [(e & _ & ->)|(_ & k & _ & [[_ ->]|[(? & _)|(? & _)]])];
      done. }
  destruct (mkdir_parents_frame _ _ _ _ Hm) as [_ Hf].
  destruct (Hf q) as [?|(? & ? & _)]; [by left|by right].
Qed.

Lemma process_keeps_dirs copy_files dry_run dest_path s s' file_path q :
  process copy_files dry_run dest_path s file_path = Some s' →
  stat s.1 q = Some Dir → stat s'.1 q = Some Dir.
Proof.
  intros H Hq. apply process_cases in H
    as [[_ ->]|[(_ & _ & ->)|(m & d & src & fs1 & r & Hs & _ & _ & Hm & H)]];
    [done..|].
  pose proof (mkdir_parents_keeps _ _ _ _ _ _ Hm Hq) as Hq1.
  destruct H as [(e & _ & ->)|(_ & k & Hfree & [[_ ->]|[(_ & fs2 & Ht & ->)
                                                    |(_ & e & _ & ->)]])];
    [done..| |done].
  eapply transfer_keeps; [done..|]. intros ->. congruence.
Qed.

Lemma process_copy_keeps dry_run dest_path s s' file_path q (n : node) :
  process true dry_run dest_path s file_path = Some s' →
  stat s.1 q = Some n → stat s'.1 q = Some n.
Proof.
  intros H Hq. apply process_cases in H
    as [[_ ->]|[(_ & _ & ->)|(m & d & src & fs1 & r & Hs & _ & _ & Hm & H)]];
    [done..|].
  pose proof (mkdir_parents_keeps _ _ _ _ _ _ Hm Hq) as Hq1.
  pose proof (mkdir_parents_keeps _ _ _ _ _ _ Hm Hs) as Hs1.
  destruct H as [(e & _ & ->)|(_ & k & Hfree & [[_ ->]|[(_ & fs2 & Ht & ->)
                                                    |(_ & e & _ & ->)]])];
    [done..| |done].
  cbn [fst]. destruct (transfer_spec _ _ _ _ _ Hfree Ht)
    as (m' & Hsrc & Hdst & Hsrc' & Hother).
  destruct (decide (q = file_path)) as [->|Hne]; [congruence|].
  rewrite Hother; [done..|]. intros ->. apply path_exists_false in Hfree.
  congruence.
Qed.

Lemma process_no_loss copy_files dry_run dest_path s s' file_path m :
  process copy_files dry_run dest_path s file_path = Some s' →
  (∃ q, stat s.1 q = Some (File m)) → ∃ q', stat s'.1 q' = Some (File m).
Proof.
  intros H [q Hq]. apply process_cases in H
    as [[_ ->]|[(_ & _ & ->)|(m0 & d & src & fs1 & r & Hs & _ & _ & Hm & H)]];
    [eauto..|].
  pose proof (mkdir_parents_keeps _ _ _ _ _ _ Hm Hq) as Hq1.
  destruct H as [(e & _ & ->)|(_ & k & Hfree & [[_ ->]|[(_ & fs2 & Ht & ->)
                                                    |(_ & e & _ & ->)]])];
    [eauto..| |eauto].
  cbn [fst]. destruct (transfer_spec _ _ _ _ _ Hfree Ht)
    as (m' & Hsrc & Hdst & Hsrc' & Hother).
  destruct (decide (q = file_path)) as [->|Hne].
  - pose proof (mkdir_parents_keeps _ _ _ _ _ _ Hm Hs). simplify_eq. eauto.
  - exists q. rewrite Hother; [done..|]. intros ->.
    apply path_exists_false in Hfree. congruence.
Qed.


Lemma process_all_dry_run copy_files dest_path walk : ∀ s s',
  process_all copy_files true dest_path s walk = Some s' →
  ∀ q, stat s'.1 q = stat s.1 q
       ∨ (stat s.1 q = None ∧ stat s'.1 q = Some Dir).
Proof.
  induction walk as [|f walk IH]; intros s s' H q; simpl in H.
  - simplify_eq. by left.
  - destruct (process copy_files true dest_path s f) as [s1|] eqn:E; [|done].
    destruct (process_dry_run _ _ _ _ _ E q) as [H1|[H1 H1']];
      destruct (IH _ _ H q) as [H2|[H2 H2']]; [left|right; split|right; split|]; congruence.
Qed.

Lemma process_all_keeps_dirs copy_files dry_run dest_path walk q : ∀ s s',
  process_all copy_files dry_run dest_path s walk = Some s' →
  stat s.1 q = Some Dir → stat s'.1 q = Some Dir.
Proof.
  induction walk as [|f walk IH]; intros s s' H Hq; simpl in H.
  - by simplify_eq.
  - destruct (process copy_files dry_run dest_path s f) as [s1|] eqn:E; [|done].
    eapply IH; [done|]. by eapply process_keeps_dirs.
Qed.

Lemma process_all_copy_keeps dry_run dest_path walk q (n : node) : ∀ s s',
  process_all true dry_run dest_path s walk = Some s' →
  stat s.1 q = Some n → stat s'.1 q = Some n.
Proof.
  induction walk as [|f walk IH]; intros s s' H Hq; simpl in H.
  - by simplify_eq.
  - destruct (process true dry_run dest_path s f) as [s1|] eqn:E; [|done].
    eapply IH; [done|]. by eapply process_copy_keeps.
Qed.

Lemma process_all_no_loss copy_files dry_run dest_path walk m : ∀ s s',
  process_all copy_files dry_run dest_path s walk = Some s' →
  (∃ q, stat s.1 q = Some (File m)) → ∃ q', stat s'.1 q' = Some (File m).
Proof.
  induction walk as [|f walk IH]; intros s s' H Hq; simpl in H.
  - by simplify_eq.
  - destruct (process copy_files dry_run dest_path s f) as [s1|] eqn:E; [|done].
    eapply IH; [done|]. by eapply process_no_loss.
Qed.

(** What [organize_photos] did was done by its first [mkdir] and then by
    the loop. *)
Lemma organize_photos_inv walk source_dir destination_dir copy_files dry_run
    fs fs' res :
  organize_photos walk source_dir destination_dir copy_files dry_run fs =
    Some (fs', res) →
  fs' = fs
  ∨ ∃ fs1 r, mkdir_parents fs destination_dir = (fs1, r)
      ∧ (fs' = fs1
         ∨ ∃ st, process_all copy_files dry_run destination_dir
                   (fs1, stats0) walk = Some (fs', st)).
Proof.
  unfold PhotoSorter.organize_photos.
  destruct (negb (path_exists fs source_dir)); [left; by simplify_eq|].
  destruct (mkdir_parents fs destination_dir) as [fs1 r] eqn:Em.
  intros H. right. exists fs1, r. split; [done|].
  destruct r as [[]|e]; [|left; by simplify_eq].
  destruct (process_all _ _ _ (fs1, stats0) walk) as [[fs2 st2]|] eqn:E; [|done].
  right. exists st2. by simplify_eq.
Qed.

(** X2. A dry run creates, moves and changes no regular file. It is not
    without effect, though: the destination directory and the dated
    directories are made all the same, so the only difference it leaves
    is that paths that did not exist may now be directories. *)
Theorem dry_run_changes_no_file (walk : list path)
    (source_dir destination_dir : path) (copy_files : bool)
    (fs fs' : filesystem) (res : outcome (option stats)) :
  organize_photos walk source_dir destination_dir copy_files true fs =
    Some (fs', res) →
  ∀ q, stat fs' q = stat fs q ∨ (stat fs q = None ∧ stat fs' q = Some Dir).
Proof.
  intros H q. apply organize_photos_inv in H as [->|(fs1 & r & Hm & H)];
    [by left|].
  destruct (mkdir_parents_frame _ _ _ _ Hm) as [_ Hf].
  assert (stat fs1 q = stat fs q ∨ stat fs q = None ∧ stat fs1 q = Some Dir)
    as H1 by (destruct (Hf q) as [?|(? & ? & _)]; [by left|by right]).
  destruct H as [->|[st H]]; [done|].
  apply process_all_dry_run with (q := q) in H. cbn [fst] in H.
  destruct H1 as [H1|[H1 H1']]; destruct H as [H2|[H2 H2']];
    [left|right; split|right; split|]; congruence.
Qed.

(** X3. In copy mode a run removes and changes nothing: whatever existed
    before, file or directory, is there afterwards as it was; the sources
    stay and no existing file is overwritten. *)
Theorem copy_mode_keeps_everything (walk : list path)
    (source_dir destination_dir : path) (dry_run : bool)
    (fs fs' : filesystem) (res : outcome (option stats)) (q : path) (n : node) :
  organize_photos walk source_dir destination_dir true dry_run fs =
    Some (fs', res) →
  stat fs q = Some n → stat fs' q = Some n.
Proof.
  intros H Hq. apply organize_photos_inv in H as [->|(fs1 & r & Hm & H)];
    [done|].
  pose proof (mkdir_parents_keeps _ _ _ _ _ _ Hm Hq) as Hq1.
  destruct H as [->|[st H]]; [done|].
  by apply (process_all_copy_keeps _ _ _ q n) in H.
Qed.

(** X4. No run loses a file, in any mode: the data of every regular file
    that existed before is held by some regular file afterwards, and every
    directory is still a directory. *)
Theorem no_photo_is_lost (walk : list path)
    (source_dir destination_dir : path) (copy_files dry_run : bool)
    (fs fs' : filesystem) (res : outcome (option stats)) :
  organize_photos walk source_dir destination_dir copy_files dry_run fs =
    Some (fs', res) →
  (∀ q m, stat fs q = Some (File m) → ∃ q', stat fs' q' = Some (File m))
  ∧ (∀ q, stat fs q = Some Dir → stat fs' q = Some Dir).
Proof.
  intros H. apply organize_photos_inv in H as [->|(fs1 & r & Hm & H)];
    [eauto|].
  split.
  - intros q m Hq. pose proof (mkdir_parents_keeps _ _ _ _ _ _ Hm Hq) as Hq1.
    destruct H as [->|[st H]]; [eauto|].
    eapply (process_all_no_loss _ _ _ _ m) in H; [done|]. eauto.
  - intros q Hq. pose proof (mkdir_parents_keeps _ _ _ _ _ _ Hm Hq) as Hq1.
    destruct H as [->|[st H]]; [done|].
    by apply (process_all_keeps_dirs _ _ _ _ q) in H.
Qed.

(** X5. A photo that is counted as processed outside a dry run is found,
    with its data, in the directory of its date under the destination,
    under its own name or a numbered one, at a path where nothing was
    before; its source is gone after a move and kept after a copy. *)
Theorem processed_photo_is_in_its_date_folder (copy_files : bool)
    (dest_path : path) (s s' : filesystem * stats) (file_path : path)
    (m : file_data) :
  process copy_files false dest_path s file_path = Some s' →
  stat s.1 file_path = Some (File m) →
  processed s'.2 = S (processed s.2) →
  ∃ d src k,
    get_photo_date s.1 file_path = Ok (d, src)
    ∧ stat s.1 (probed (date_path dest_path d) file_path k) = None
    ∧ stat s'.1 (probed (date_path dest_path d) file_path k) = Some (File m)
    ∧ stat s'.1 file_path = (if copy_files then Some (File m) else None).
Proof.
  intros H Hs Hp. apply process_cases in H
    as [[Hf ->]|[(_ & _ & ->)|(m0 & d & src & fs1 & r & Hs0 & _ & Hd & Hm & H)]].
  - lia.
  - simpl in Hp. lia.
  - simplify_eq. exists d, src.
    destruct H as [(e & _ & ->)|(_ & k & Hfree & [[? _]|[(_ & fs2 & Ht & ->)
                                                    |(_ & e & _ & ->)]])];
      [destruct src; simpl in Hp; lia|done| |destruct src; simpl in Hp; lia].
    exists k. split; [done|]. cbn [fst].
    destruct (transfer_spec _ _ _ _ _ Hfree Ht)
      as (m' & Hsrc & Hdst & Hsrc' & _).
    pose proof (mkdir_parents_keeps _ _ _ _ _ _ Hm Hs0) as Hs1. simplify_eq.
    split; [|done]. apply path_exists_false in Hfree.
    destruct (mkdir_parents_frame _ _ _ _ Hm) as [_ Hf].
    destruct (Hf (probed (date_path dest_path d) file_path k))
      as [Heq|(? & ? & _)]; congruence.
Qed.

(** X6. A turn that ends in an error moves nothing: every file and
    directory that existed is still there as it was, the photo that failed
    included. *)
Theorem failed_photo_stays (copy_files dry_run : bool) (dest_path : path)
    (s s' : filesystem * stats) (file_path q : path) (n : node) :
  process copy_files dry_run dest_path s file_path = Some s' →
  errors s'.2 = S (errors s.2) →
  stat s.1 q = Some n → stat s'.1 q = Some n.
Proof.
  intros H He Hq. apply process_cases in H
    as [[Hf ->]|[(_ & _ & ->)|(m0 & d & src & fs1 & r & Hs0 & _ & Hd & Hm & H)]].
  - done.
  - done.
  - pose proof (mkdir_parents_keeps _ _ _ _ _ _ Hm Hq) as Hq1.
    destruct H as [(e & _ & ->)|(_ & k & Hfree & [[? ->]|[(_ & fs2 & Ht & ->)
                                                    |(_ & e & _ & ->)]])];
      [done|done| |done].
    destruct src; simpl in He; lia.
Qed.

End Runs.

(** ** The photo sorter: a date field that does not parse *)

Section BrokenDates.

Variable strptime : string → option datetime.
Variable TAGS : Z → option string.

Lemma pil_loop_app_no_tag (l1 l2 : list (Z * string)) :
  (∀ i v, (i, v) ∈ l1 →
     TAGS i ≠ Some "DateTimeOriginal" ∧ TAGS i ≠ Some "DateTime") →
  pil_loop strptime TAGS (l1 ++ l2) = pil_loop strptime TAGS l2.
Proof.
  induction l1 as [|[i v] l1 IH]; intros H; [reflexivity|]. simpl.
  destruct (H i v) as [H1 H2]; [apply list_elem_of_here|].
  rewrite !bool_decide_eq_false_2 by done.
  apply IH. intros j w Hj. apply (H j w). by apply list_elem_of_further.
Qed.

(** X7. A date field that does not parse is not passed over: it ends the
    method that met it. In method 1 the first [DateTimeOriginal] or
    [DateTime] item of PIL's dictionary decides alone: if [strptime]
    refuses it, whatever follows it in the dictionary is never looked at
    and the date is what method 2 finds. In method 2 an
    [EXIF DateTimeOriginal] that does not parse hides [Image DateTime]. *)
Theorem unparseable_field_ends_the_method (fs : filesystem) (file_path : path)
    (m : file_data) :
  stat fs file_path = Some (File m) →
  (∀ l1 tag_id value l2,
     pil_exif m = Some (l1 ++ (tag_id, value) :: l2) →
     (∀ i v, (i, v) ∈ l1 →
        TAGS i ≠ Some "DateTimeOriginal" ∧ TAGS i ≠ Some "DateTime") →
     TAGS tag_id = Some "DateTimeOriginal" ∨ TAGS tag_id = Some "DateTime" →
     strptime value = None →
     get_exif_date strptime TAGS fs file_path =
     match method2 strptime m with
     | Returned d => Some d
     | _ => None
     end)
  ∧ (∀ tags value,
       (∀ d, method1 strptime TAGS m ≠ Returned d) →
       exifread_tags m = Some tags →
       tags !! "EXIF DateTimeOriginal" = Some value →
       strptime value = None →
       get_photo_date strptime TAGS fs file_path =
       Ok (mtime m, FileModified)).
Proof.
  intros Hs. split.
  - intros l1 tag_id value l2 Hpil Hl1 Htag Hv.
    unfold get_exif_date. rewrite Hs.
    assert (method1 strptime TAGS m = Raised) as ->; [|done].
    unfold method1. rewrite Hpil.
    assert (pil_loop strptime TAGS (l1 ++ (tag_id, value) :: l2) = Raised) as Hl.
    { rewrite pil_loop_app_no_tag by done. simpl. unfold parse. rewrite Hv.
      destruct Htag as [-> | ->].
      - by rewrite bool_decide_eq_true_2.
      - rewrite bool_decide_eq_false_2 by done.
        by rewrite bool_decide_eq_true_2. }
    by destruct (l1 ++ (tag_id, value) :: l2).
  - intros tags value H1 Ht Hlook Hv.
    unfold get_photo_date, get_exif_date, get_file_date. rewrite Hs.
    unfold method2. rewrite Ht, Hlook. unfold parse. rewrite Hv.
    destruct (method1 strptime TAGS m) as [d| |] eqn:E; [|done..].
    by destruct (H1 d).
Qed.

End BrokenDates.

(** ** The safe move of [organize_files.py] *)

Section SafeMove.

Implicit Types (fs : filesystem) (source destination dest : path).

(** The rename loop stays in the directory it started in and ends on a
    path that does not exist. *)
Lemma rename_loop_free fs (stem_ ext : string) (fuel : nat) :
  ∀ destination counter dest c,
    rename_loop fuel fs stem_ ext destination counter = Some (dest, c) →
    path_exists fs dest = false
    ∧ (dest = destination ∨ parent dest = parent destination).
Proof.
  induction fuel as [|fuel IH]; intros destination counter dest c H; [done|].
  simpl in H. destruct (path_exists fs destination) eqn:E.
  - apply IH in H as [Hfree [->|Hpar]]; (split; [done|right]); done.
  - simplify_eq. split; [done|by left].
Qed.

Lemma safe_destination_free fs fuel destination dest c :
  safe_destination fuel fs destination = Some (dest, c) →
  path_exists fs dest = false
  ∧ (dest = destination ∨ parent dest = parent destination).
Proof.
  unfold safe_destination. destruct (path_exists fs destination) eqn:E.
  - apply rename_loop_free.
  - intros H. simplify_eq. split; [done|by left].
Qed.

(** The two ways [move_file_safely] ends. *)
Lemma move_file_safely_inv fuel fs fs' source destination ok final :
  move_file_safely fuel fs source destination = Some (fs', (ok, final)) →
  (ok = false ∧ final = None ∧ fs' = fs)
  ∨ (ok = true ∧ ∃ dest m,
       final = Some dest
       ∧ (dest = destination ∨ parent dest = parent destination)
       ∧ stat fs source = Some (File m)
       ∧ stat fs dest = None
       ∧ stat fs' dest = Some (File m)
       ∧ stat fs' source = None
       ∧ ∀ q, q ≠ source → q ≠ dest → stat fs' q = stat fs q).
Proof.
  unfold move_file_safely.
  destruct (safe_destination fuel fs destination) as [[dest c]|] eqn:Ed; [|done].
  apply safe_destination_free in Ed as [Hfree Hpar].
  destruct (shutil_move fs source dest) as [fs1|e] eqn:Em; intros H;
    simplify_eq; [right|by left].
  split; [done|].
  destruct (transfer_spec false _ _ _ _ Hfree Em) as (m & Hs & Hd & Hs' & Ho).
  exists dest, m. apply path_exists_false in Hfree. done.
Qed.


End SafeMove.

(** ** Categories of [organize_files.py] *)

Section CaseFacts.

Import Casing.

Lemma lower_char_dot (c : ascii) : lower_char c = "."%char ↔ c = "."%char.
Proof.
  destruct c as [[] [] [] [] [] [] [] []]; vm_compute; split; congruence.
Qed.

Lemma length_lower (s : string) : String.length (lower s) = String.length s.
Proof. induction s; simpl; congruence. Qed.

Lemma rfind_dot_lower (s : string) : PyStr.rfind_dot (lower s) = PyStr.rfind_dot s.
Proof.
  induction s as [|c s IH]; [reflexivity|]. simpl. rewrite IH.
  destruct (PyStr.rfind_dot s); [reflexivity|].
  destruct (decide (c = "."%char)) as [->|Hc]; [reflexivity|].
  rewrite decide_False; [reflexivity|]. by rewrite lower_char_dot.
Qed.

Lemma drop_lower (i : nat) (s : string) :
  PyStr.drop i (lower s) = lower (PyStr.drop i s).
Proof. revert i. induction s as [|c s IH]; intros [|i]; simpl; auto. Qed.

Lemma suffix_lower (n : string) : name_suffix (lower n) = lower (name_suffix n).
Proof.
  unfold name_suffix. rewrite rfind_dot_lower, length_lower.
  destruct (PyStr.rfind_dot n) as [i|]; [|reflexivity].
  destruct (_ && _); [apply drop_lower|reflexivity].
Qed.

Lemma startswith_dot_lower (s : string) :
  PyStr.startswith "." (lower s) = PyStr.startswith "." s.
Proof.
  destruct s as [|c s]; [reflexivity|]. simpl.
  destruct (decide (c = "."%char)) as [->|Hc]; [reflexivity|].
  rewrite !bool_decide_eq_false_2; [reflexivity|congruence|].
  intros H. symmetry in H. by rewrite lower_char_dot in H.
Qed.

Lemma endswith_app (suf s : string) :
  endswith suf s = true → ∃ a, s = a +:+ suf.
Proof.
  unfold endswith. rewrite andb_true_iff, !bool_decide_eq_true.
  intros [_ H]. exists (PyStr.take (String.length s - String.length suf) s).
  rewrite <- (take_drop (String.length s - String.length suf) s) at 1.
  by rewrite H.
Qed.

Lemma rfind_dot_app (a b : string) :
  PyStr.rfind_dot (a +:+ b) =
  match PyStr.rfind_dot b with
  | Some i => Some (String.length a + i)
  | None => PyStr.rfind_dot a
  end.
Proof.
  induction a as [|c a IH].
  { rewrite append_empty_l. by destruct (PyStr.rfind_dot b). }
  rewrite append_cons. simpl. rewrite IH.
  by destruct (PyStr.rfind_dot b).
Qed.

Lemma string_drop_app (a b : string) (i : nat) :
  PyStr.drop (String.length a + i) (a +:+ b) = PyStr.drop i b.
Proof.
  induction a as [|c a IH]; [reflexivity|]. rewrite append_cons. apply IH.
Qed.

(** The suffix of a name is the suffix of its ending, when that ending
    holds a dot that is neither its first nor its last character. *)
Lemma suffix_app (a b : string) (i : nat) :
  PyStr.rfind_dot b = Some i → 0 < i → i < String.length b - 1 →
  name_suffix (a +:+ b) = PyStr.drop i b.
Proof.
  intros Hb H0 H1. unfold name_suffix. rewrite rfind_dot_app, Hb.
  rewrite length_append.
  rewrite !bool_decide_eq_true_2 by lia. apply string_drop_app.
Qed.

End CaseFacts.

Section Categories.

Import Casing Organizer.

(** X9. The category of a file does not depend on the case of its name:
    two names that are equal once lowered get the same category. *)
Theorem category_ignores_case (p q : path) :
  lower (name p) = lower (name q) →
  get_file_category p = get_file_category q.
Proof.
  intros H. unfold get_file_category, suffix.
  by rewrite <- !suffix_lower, H.
Qed.

Lemma category_ignores_case_witness :
  get_file_category ["Holiday.JPG"; "dl"] = get_file_category ["holiday.jpg"; "x"]
  ∧ get_file_category ["holiday.jpg"; "x"] = Some "Images".
Proof.
  split; [|reflexivity].
  apply category_ignores_case. reflexivity.
Defined.

(** X10. The last extension alone decides the category: the special case
    for [.tar.gz], [.tar.bz2] and [.tar.xz] never changes what the table
    gives for [.gz], [.bz2] and [.xz]. *)
Theorem category_by_last_extension (p : path) :
  get_file_category p = first_category (lower (suffix p)) FILE_TYPE_MAPPINGS.
Proof.
  unfold get_file_category.
  destruct (existsb _ _) eqn:E; [|reflexivity].
  unfold suffix. rewrite <- suffix_lower.
  cbn [existsb] in E. rewrite orb_false_r in E.
  apply orb_true_iff in E as [E|E]; [|apply orb_true_iff in E as [E|E]];
    apply endswith_app in E as [a ->];
    erewrite suffix_app by (reflexivity || (simpl; lia)); reflexivity.
Qed.

(** X11. Hidden files are always skipped: [should_skip_file] holds exactly
    of the four undotted system names (in any case), of every name that
    starts with a dot and has a second character, and of directories. The
    dotted entries of [SKIP_FILES] add nothing to that. *)
Theorem skip_rule (fs : filesystem) (p : path) :
  should_skip_file fs p =
  bool_decide (lower (name p) ∈
                 ["desktop.ini"; "thumbs.db"; "$recycle.bin";
                  "system volume information"])
  || PyStr.startswith "." (name p) && bool_decide (1 < String.length (name p))
  || is_dir fs p.
Proof.
  unfold should_skip_file. rewrite startswith_dot_lower, length_lower.
  f_equal.
  destruct (PyStr.startswith "." (name p)
            && bool_decide (1 < String.length (name p))) eqn:Eh.
  { by rewrite !orb_true_r. }
  rewrite !orb_false_r. apply bool_decide_ext.
  rewrite <- startswith_dot_lower, <- length_lower in Eh.
  unfold SKIP_FILES. rewrite !elem_of_cons, !elem_of_nil.
  split; [|tauto].
  intros H. repeat (destruct H as [H|H]; [try tauto; by rewrite H in Eh|]).
  done.
Qed.

End Categories.

(** ** Category folders *)

Section CategoryFolders.

Import Organizer.

Implicit Types (fs : filesystem) (base_path q : path).

Lemma mkdir_exist_ok_new fs fs' q :
  path_exists fs q = false → mkdir_exist_ok fs q = Ok fs' →
  q ≠ [] ∧ fs' = with_nodes fs (<[q := Dir]> (nodes fs)).
Proof.
  intros Hfree%path_exists_false H. unfold mkdir_exist_ok in H.
  destruct (os_mkdir fs q) as [fs1|e] eqn:E.
  - simplify_eq. apply os_mkdir_Ok in E as (_ & _ & _ & ->).
    split; [|done]. by intros ->.
  - unfold is_dir in H. rewrite Hfree in H. by destruct e.
Qed.

(** X12. [create_category_folders] only ever adds directories, and only
    at the category paths: whatever existed stays as it was. When it
    returns [True] every category path exists; it is a directory unless a
    regular file of that name was there already, which the function does
    not notice. When it returns [False] some category path is still
    missing. *)
Theorem create_category_folders_spec (categories : list string) :
  ∀ fs base_path fs' ok,
    create_category_folders fs base_path categories = (fs', ok) →
    (∀ q, stat fs' q = stat fs q
          ∨ (stat fs q = None ∧ stat fs' q = Some Dir
             ∧ ∃ c, c ∈ categories ∧ q = base_path </> c))
    ∧ (ok = true → ∀ c, c ∈ categories →
         is_dir fs' (base_path </> c) = true
         ∨ is_file fs (base_path </> c) = true)
    ∧ (ok = false → ∃ c, c ∈ categories
         ∧ path_exists fs' (base_path </> c) = false).
Proof.
  induction categories as [|c categories IH]; intros fs base_path fs' ok H.
  { simpl in H. simplify_eq. split; [by left|]. split; [|done].
    intros _ c Hc. by apply elem_of_nil in Hc. }
  simpl in H. destruct (path_exists fs (base_path </> c)) eqn:Ec; cbn [negb] in H.
  - apply IH in H as (Hframe & Htrue & Hfalse). split; [|split].
    + intros q. destruct (Hframe q) as [?|(? & ? & c' & ? & ?)]; [by left|].
      right. repeat split; [done..|]. exists c'. split; [|done].
      by apply list_elem_of_further.
    + intros Hok c' [->|Hc']%elem_of_cons; [|by apply Htrue].
      destruct (stat fs (base_path </> c)) as [[|m]|] eqn:Es.
      * left. apply is_dir_stat.
        destruct (Hframe (base_path </> c)) as [->|(? & _)]; congruence.
      * right. apply is_file_stat. eauto.
      * apply path_exists_stat in Ec. rewrite Es in Ec. by destruct Ec.
    + intros Hok. destruct (Hfalse Hok) as (c' & ? & ?). exists c'.
      split; [by apply list_elem_of_further|done].
  - destruct (mkdir_exist_ok fs (base_path </> c)) as [fs1|e] eqn:Em.
    + apply mkdir_exist_ok_new in Em as [_ ->]; [|done].
      apply IH in H as (Hframe & Htrue & Hfalse).
      assert (∀ q, stat (with_nodes fs (<[base_path </> c:=Dir]> (nodes fs))) q
                   = if decide (q = base_path </> c) then Some Dir
                     else stat fs q) as Hins.
      { intros q. rewrite stat_insert. destruct q; [done|].
        repeat case_decide; congruence. }
      apply path_exists_false in Ec. split; [|split].
      * intros q. destruct (Hframe q) as [Hq|(Hq & Hq' & c' & ? & ?)];
          rewrite Hins in Hq; case_decide; subst.
        -- right. repeat split; [done..|]. exists c. split; [|done].
           apply list_elem_of_here.
        -- by left.
        -- done.
        -- right. repeat split; [done..|]. exists c'. split; [|done].
           by apply list_elem_of_further.
      * intros Hok c' [->|Hc']%elem_of_cons.
        -- left. apply is_dir_stat.
           destruct (Hframe (base_path </> c)) as [Hq|(Hq & _)];
             rewrite Hins, decide_True in Hq by done; congruence.
        -- destruct (Htrue Hok c' Hc') as [?|Hf]; [by left|right].
           apply is_file_stat in Hf as [m Hf]. rewrite Hins in Hf.
           case_decide; [done|]. apply is_file_stat. eauto.
      * intros Hok. destruct (Hfalse Hok) as (c' & ? & ?). exists c'.
        split; [by apply list_elem_of_further|done].
    + simplify_eq. split; [by left|]. split; [done|]. intros _.
      exists c. split; [apply list_elem_of_here|done].
Qed.

End CategoryFolders.

(** ** Organizing a folder *)

Section Folders.

Import Organizer.

Variable iterdir : list path.
Variable set_iter : list string → list string.
Variable response : string.

#[local] Abbreviation organize_folder :=
  (organize_folder iterdir set_iter response).

(** The files [organize_folder] sets out to move: the regular files of
    the listing that are not skipped and have a category. *)
#[local] Abbreviation wanted fs :=
  (filter (λ item, is_file fs item = true ∧ should_skip_file fs item = false
                   ∧ is_Some (get_file_category item)) iterdir).

(** What a sequence of safe moves of [sources] does: directories stay,
    no data is lost, and what is not a source is not touched. *)
#[local] Abbreviation harmless fs fs' sources :=
  ((∀ q, stat fs q = Some Dir → stat fs' q = Some Dir)
   ∧ (∀ m, (∃ q, stat fs q = Some (File m)) → ∃ q', stat fs' q' = Some (File m))
   ∧ (∀ q (n : node), stat fs q = Some n → q ∉ sources → stat fs' q = Some n)).

Lemma first_category_key (e : string) (l : list (string * list string)) c :
  first_category e l = Some c → c ∈ l.*1.
Proof.
  induction l as [|[k v] l IH]; [done|]. simpl. case_bool_decide as Hin.
  - intros Hc. simplify_eq. apply list_elem_of_here.
  - intros Hc. apply list_elem_of_further. by apply IH.
Qed.

(** A category is never the empty string. *)
Lemma get_file_category_nonempty (p : path) : get_file_category p ≠ Some "".
Proof.
  unfold get_file_category. destruct (existsb _ _); [done|].
  intros H%first_category_key. unfold FILE_TYPE_MAPPINGS in H.
  cbn [fmap list_fmap fst] in H.
  repeat (apply elem_of_cons in H; destruct H as [H|H]; [done|]).
  by apply elem_of_nil in H.
Qed.

Lemma dict_append_perm (d : list (string * list path)) (c : string) (x : path) :
  concat (dict_append d c x).*2 ≡ₚ x :: concat d.*2.
Proof.
  induction d as [|[k files] d IH]; [done|]. simpl. case_bool_decide.
  - cbn [fmap list_fmap snd concat]. rewrite <- (assoc_L (++)). simpl.
    by rewrite <- Permutation_middle.
  - cbn [fmap list_fmap snd concat]. rewrite IH.
    by rewrite <- Permutation_middle.
Qed.

(** The first loop gathers exactly the wanted files. *)
Lemma collect_perm fs (items : list path) : ∀ d skipped,
  concat (collect fs items d skipped).1.*2 ≡ₚ
  concat d.*2
  ++ filter (λ item, is_file fs item = true ∧ should_skip_file fs item = false
                     ∧ is_Some (get_file_category item)) items.
Proof.
  induction items as [|x items IH]; intros d skipped.
  { simpl. by rewrite filter_nil, app_nil_r. }
  cbn [collect]. rewrite filter_cons.
  destruct (is_file fs x) eqn:Ef.
  2:{ rewrite decide_False by naive_solver. apply IH. }
  destruct (should_skip_file fs x) eqn:Es.
  { rewrite decide_False by naive_solver. apply IH. }
  destruct (get_file_category x) as [[|a c]|] eqn:Ec.
  - by apply get_file_category_nonempty in Ec.
  - rewrite decide_True by (repeat split; [done..|by eexists]).
    rewrite IH, dict_append_perm. by rewrite <- Permutation_middle.
  - rewrite decide_False; [apply IH|]. intros (_ & _ & []). done.
Qed.

Lemma move_files_spec (category_folder : path) (files : list path) :
  ∀ fs counts fs' counts',
    move_files fs category_folder files counts = Some (fs', counts') →
    counts'.1 + counts'.2 = counts.1 + counts.2 + length files
    ∧ harmless fs fs' files.
Proof.
  induction files as [|f files IH]; intros fs counts fs' counts' H.
  { simpl in H. simplify_eq. split; [simpl; lia|]. eauto. }
  simpl in H.
  destruct (move_file_safely _ fs f _) as [[fs1 [ok final]]|] eqn:Em; [|done].
  apply move_file_safely_inv in Em
    as [(-> & -> & ->)|[-> (dest & m & -> & _ & Hs & Hd & Hd' & Hs' & Ho)]].
  - apply IH in H as (Hc & Hdir & Hdata & Hrest). simpl in Hc.
    split; [simpl; lia|]. split; [done|]. split; [done|].
    intros q n Hq Hnot. apply Hrest; [done|].
    intros Hin. apply Hnot. by apply list_elem_of_further.
  - apply IH in H as (Hc & Hdir & Hdata & Hrest). simpl in Hc.
    split; [simpl; lia|]. split; [|split].
    + intros q Hq. apply Hdir. rewrite Ho; [done|congruence..].
    + intros m' [q Hq]. apply Hdata.
      destruct (decide (q = f)) as [->|Hne]; [simplify_eq; eauto|].
      exists q. rewrite Ho; [done..|]. congruence.
    + intros q n Hq Hnot. apply Hrest.
      * rewrite Ho; [done| |congruence]. intros ->. apply Hnot.
        apply list_elem_of_here.
      * intros Hin. apply Hnot. by apply list_elem_of_further.
Qed.

Lemma move_all_spec (folder_path : path) (d : list (string * list path)) :
  ∀ fs counts fs' counts',
    move_all fs folder_path d counts = Some (fs', counts') →
    counts'.1 + counts'.2 = counts.1 + counts.2 + length (concat d.*2)
    ∧ harmless fs fs' (concat d.*2).
Proof.
  induction d as [|[c files] d IH]; intros fs counts fs' counts' H.
  { simpl in H. simplify_eq. split; [simpl; lia|]. eauto. }
  simpl in H.
  destruct (move_files fs _ files counts) as [[fs1 counts1]|] eqn:Em; [|done].
  apply move_files_spec in Em as (Hc1 & Hdir1 & Hdata1 & Hrest1).
  apply IH in H as (Hc & Hdir & Hdata & Hrest).
  cbn [fmap list_fmap snd concat]. rewrite length_app.
  split; [lia|]. split; [auto|]. split; [auto|].
  intros q n Hq Hnot. apply Hrest.
  - apply Hrest1; [done|]. intros Hin. apply Hnot. apply elem_of_app. by left.
  - intros Hin. apply Hnot. apply elem_of_app. by right.
Qed.

Lemma create_category_folders_keeps (categories : list string) :
  ∀ fs base_path fs' ok q (n : node),
    create_category_folders fs base_path categories = (fs', ok) →
    stat fs q = Some n → stat fs' q = Some n.
Proof.
  induction categories as [|c categories IH]; intros fs base_path fs' ok q n H Hq.
  { simpl in H. by simplify_eq. }
  simpl in H. destruct (path_exists fs (base_path </> c)) eqn:Ec; cbn [negb] in H.
  { by eapply IH. }
  destruct (mkdir_exist_ok fs (base_path </> c)) as [fs1|e] eqn:Em;
    [|by simplify_eq].
  apply mkdir_exist_ok_new in Em as [_ ->]; [|done]. eapply IH; [done|].
  rewrite stat_insert. destruct q; [done|]. case_decide; [|done].
  apply path_exists_false in Ec. congruence.
Qed.

(** How a call of [organize_folder] went. *)
Lemma organize_folder_inv fs folder_path fs' ok counts :
  organize_folder fs folder_path = Some (fs', ok, counts) →
  (fs' = fs ∧ counts = (0, 0)
   ∧ (ok = true → (collect fs iterdir [] []).1 = []))
  ∨ (response = "y"
     ∧ ∃ fs1 ok1,
         create_category_folders fs folder_path
           (set_iter (collect fs iterdir [] []).1.*1) = (fs1, ok1)
         ∧ ((ok1 = false ∧ ok = false ∧ fs' = fs1 ∧ counts = (0, 0))
            ∨ (ok1 = true ∧ ok = true
               ∧ move_all fs1 folder_path (collect fs iterdir [] []).1 (0, 0)
                 = Some (fs', counts)))).
Proof.
  unfold Organizer.organize_folder.
  destruct (negb (path_exists fs folder_path));
    [intros H; left; by simplify_eq|].
  destruct (negb (is_dir fs folder_path)); [intros H; left; by simplify_eq|].
  destruct (collect fs iterdir [] []).1 as [|kv d] eqn:Ed;
    [intros H; left; by simplify_eq|].
  case_bool_decide as Hy; cbn [negb]; [|intros H; left; by simplify_eq].
  destruct (create_category_folders _ _ _) as [fs1 ok1] eqn:Ec.
  intros H. right. split; [done|]. exists fs1, ok1. split; [done|].
  destruct ok1; [right|left; by simplify_eq].
  destruct (move_all fs1 folder_path (kv :: d) (0, 0)) as [[fs2 c2]|] eqn:Em;
    [|done].
  by simplify_eq.
Qed.

(** X13. [organize_folder] loses nothing: the data of every regular file
    that existed before is held by some regular file afterwards, and
    every directory is still a directory. *)
Theorem organize_folder_loses_nothing (fs : filesystem) (folder_path : path)
    (fs' : filesystem) (ok : bool) (counts : nat * nat) :
  organize_folder fs folder_path = Some (fs', ok, counts) →
  (∀ q m, stat fs q = Some (File m) → ∃ q', stat fs' q' = Some (File m))
  ∧ (∀ q, stat fs q = Some Dir → stat fs' q = Some Dir).
Proof.
  intros H. apply organize_folder_inv in H
    as [(-> & _)|(_ & fs1 & ok1 & Hc & H)]; [eauto|].
  assert (∀ q (n : node), stat fs q = Some n → stat fs1 q = Some n) as Hk
    by (intros; by eapply create_category_folders_keeps).
  destruct H as [(_ & _ & -> & _)|(_ & _ & Hm)]; [eauto|].
  apply move_all_spec in Hm as (_ & Hdir & Hdata & _). split.
  - intros q m Hq. apply Hdata. eauto.
  - intros q Hq. apply Hdir. eauto.
Qed.

(** X14. When [organize_folder] returns [True], the two counters of its
    summary add up to the number of files it set out to move: each of
    them was either moved or counted as failed. *)
Theorem organize_folder_counts (fs : filesystem) (folder_path : path)
    (fs' : filesystem) (moved_count failed_count : nat) :
  organize_folder fs folder_path = Some (fs', true, (moved_count, failed_count)) →
  moved_count + failed_count = length (wanted fs).
Proof.
  intros H. pose proof (collect_perm fs iterdir [] []) as Hp.
  cbn [fmap list_fmap concat app] in Hp.
  apply organize_folder_inv in H
    as [(_ & Hc & Hd)|(_ & fs1 & ok1 & _ & [(_ & ? & _)|(_ & _ & Hm)])];
    [|done|].
  - rewrite Hd in Hp by done. simplify_eq. by rewrite <- Hp.
  - apply move_all_spec in Hm as (Hc & _). cbn [fst snd] in Hc.
    by rewrite <- Hp, Hc.
Qed.

(** X15. [organize_folder] touches a path only if the answer was [y] and
    the path is one of the files it set out to move: hidden and system
    files, files of no known category, directories and everything outside
    the listing stay as they were. *)
Theorem organize_folder_touches_only_its_files (fs : filesystem)
    (folder_path : path) (fs' : filesystem) (ok : bool) (counts : nat * nat)
    (q : path) (n : node) :
  organize_folder fs folder_path = Some (fs', ok, counts) →
  stat fs q = Some n →
  response ≠ "y" ∨ q ∉ wanted fs →
  stat fs' q = Some n.
Proof.
  intros H Hq Hwhy. apply organize_folder_inv in H
    as [(-> & _)|(Hy & fs1 & ok1 & Hc & H)]; [done|].
  destruct Hwhy as [?|Hnot]; [done|].
  pose proof (create_category_folders_keeps _ _ _ _ _ _ _ Hc Hq) as Hq1.
  destruct H as [(_ & _ & -> & _)|(_ & _ & Hm)]; [done|].
  apply move_all_spec in Hm as (_ & _ & _ & Hrest). apply Hrest; [done|].
  intros Hin. apply Hnot.
  pose proof (collect_perm fs iterdir [] []) as Hp.
  cbn [fmap list_fmap concat app] in Hp. by rewrite <- Hp.
Qed.

(** *** Where the organized files go *)

Lemma elem_of_concat {A} (x : A) (ls : list (list A)) :
  x ∈ concat ls → ∃ l, x ∈ l ∧ l ∈ ls.
Proof.
  induction ls as [|l ls IH]; simpl; [by intros ?%elem_of_nil|].
  intros [Hx|Hx]%elem_of_app.
  - exists l. split; [done|apply list_elem_of_here].
  - destruct (IH Hx) as (l' & ? & ?). exists l'.
    split; [done|by apply list_elem_of_further].
Qed.

Lemma length_probed cf f (k : nat) : length (probed cf f k) = S (length cf).
Proof. by destruct k. Qed.

(** A successful safe move into a folder puts the file there under its
    own name or a numbered one. *)
Lemma move_into_folder fs fs' cf f final :
  move_file_safely (enough_fuel fs) fs f (cf </> name f) =
    Some (fs', (true, final)) →
  ∃ k m, stat fs f = Some (File m)
    ∧ stat fs (probed cf f k) = None
    ∧ stat fs' (probed cf f k) = Some (File m)
    ∧ ∀ q, q ≠ f → q ≠ probed cf f k → stat fs' q = stat fs q.
Proof.
  unfold move_file_safely.
  rewrite safe_destination_handle_conflicts by (unfold enough_fuel; lia).
  destruct (handle_conflicts _ fs cf f) as [[dest c]|] eqn:Eh; [|done].
  apply handle_conflicts_free in Eh as (Hfree & -> & _).
  destruct (shutil_move fs f _) as [fs1|e] eqn:Em; [|done].
  intros H. simplify_eq.
  destruct (transfer_spec false _ _ _ _ Hfree Em) as (m & Hs & Hd & _ & Ho).
  exists (c - 1), m. apply path_exists_false in Hfree. done.
Qed.

Lemma move_files_keeps cf (files : list path) fs counts fs' counts' q
    (n : node) :
  move_files fs cf files counts = Some (fs', counts') →
  stat fs q = Some n → q ∉ files → stat fs' q = Some n.
Proof.
  intros H. apply move_files_spec in H as (_ & _ & _ & H). apply H.
Qed.

Lemma move_all_keeps folder_path (d : list (string * list path)) fs counts
    fs' counts' q (n : node) :
  move_all fs folder_path d counts = Some (fs', counts') →
  stat fs q = Some n → q ∉ concat d.*2 → stat fs' q = Some n.
Proof.
  intros H. apply move_all_spec in H as (_ & _ & _ & H). apply H.
Qed.

(** After the moves of one category each of its files is still in place
    or in the category folder. *)
Lemma move_files_lands cf (files : list path) :
  ∀ fs counts fs' counts',
    move_files fs cf files counts = Some (fs', counts') →
    (∀ g, g ∈ files → length g ≤ length cf) →
    ∀ f m, f ∈ files → stat fs f = Some (File m) →
      stat fs' f = Some (File m)
      ∨ ∃ k, stat fs' (probed cf f k) = Some (File m).
Proof.
  induction files as [|f0 files IH];
    intros fs counts fs' counts' H Hlen f m Hf Hs.
  { by apply elem_of_nil in Hf. }
  simpl in H.
  destruct (move_file_safely _ fs f0 _) as [[fs1 [ok final]]|] eqn:Em; [|done].
  assert (∀ g, g ∈ files → length g ≤ length cf) as Hlen'.
  { intros g Hg. apply Hlen. by apply list_elem_of_further. }
  destruct ok.
  - apply move_into_folder in Em as (k & m0 & Hs0 & Hfree & Hnew & Ho).
    destruct (decide (f = f0)) as [->|Hne].
    + simplify_eq. right. exists k.
      eapply move_files_keeps; [done..|].
      intros Hin%Hlen'. rewrite length_probed in Hin. lia.
    + apply elem_of_cons in Hf as [?|Hf]; [done|].
      eapply IH; [done..|]. rewrite Ho; [done..|]. congruence.
  - apply move_file_safely_inv in Em as [(_ & _ & ->)|[? _]]; [|done].
    destruct (decide (f ∈ files)) as [Hin|Hnot].
    + by eapply IH.
    + left. by eapply move_files_keeps.
Qed.

Lemma move_all_lands folder_path (d : list (string * list path)) :
  ∀ fs counts fs' counts',
    move_all fs folder_path d counts = Some (fs', counts') →
    (∀ c files g, (c, files) ∈ d → g ∈ files →
       get_file_category g = Some c ∧ length g ≤ S (length folder_path)) →
    ∀ c files f m, (c, files) ∈ d → f ∈ files → stat fs f = Some (File m) →
      stat fs' f = Some (File m)
      ∨ ∃ k, stat fs' (probed (folder_path </> c) f k) = Some (File m).
Proof.
  induction d as [|[c0 files0] d IH];
    intros fs counts fs' counts' H Hd c files f m Hin Hf Hs.
  { by apply elem_of_nil in Hin. }
  simpl in H.
  destruct (move_files fs _ files0 counts) as [[fs1 counts1]|] eqn:Em; [|done].
  assert (∀ c files g, (c, files) ∈ d → g ∈ files →
            get_file_category g = Some c ∧ length g ≤ S (length folder_path))
    as Hd'.
  { intros c' files' g Hc Hg. eapply Hd; [|done]. by apply list_elem_of_further. }
  destruct (Hd c files f Hin Hf) as [Hcat _].
  assert (stat fs1 f = Some (File m)
          ∨ ∃ k, stat fs1 (probed (folder_path </> c) f k) = Some (File m))
    as [Hs1|[k Hk]].
  { destruct (decide (f ∈ files0)) as [Hf0|Hf0].
    - destruct (Hd c0 files0 f) as [Hcat0 _]; [apply list_elem_of_here|done|].
      assert (c0 = c) as -> by congruence.
      eapply move_files_lands; [done| |done..].
      intros g Hg. destruct (Hd c files0 g) as [_ Hl];
        [apply list_elem_of_here|done|]. done.
    - left. by eapply move_files_keeps. }
  - destruct (decide (f ∈ concat d.*2)) as [Hlater|Hlater].
    + apply elem_of_concat in Hlater as (files' & Hf' & Hfiles').
      apply list_elem_of_fmap in Hfiles' as ([c' files''] & -> & Hc').
      destruct (Hd' c' files'' f Hc' Hf') as [Hcat' _].
      assert (c' = c) as -> by congruence.
      by eapply IH.
    + left. by eapply move_all_keeps.
  - right. exists k. eapply move_all_keeps; [done..|].
    intros Hlater. apply elem_of_concat in Hlater as (files' & Hf' & Hfiles').
    apply list_elem_of_fmap in Hfiles' as ([c' files''] & -> & Hc').
    destruct (Hd' c' files'' _ Hc' Hf') as [_ Hl].
    rewrite length_probed in Hl. simpl in Hl. lia.
Qed.

Lemma dict_append_elem (d : list (string * list path)) (c : string) (x : path)
    c' files' g :
  (c', files') ∈ dict_append d c x → g ∈ files' →
  (∃ files0, (c', files0) ∈ d ∧ g ∈ files0) ∨ (c' = c ∧ g = x).
Proof.
  induction d as [|[k files] d IH]; simpl.
  - intros Hin Hg. apply list_elem_of_singleton in Hin. simplify_eq.
    apply list_elem_of_singleton in Hg. by right.
  - case_bool_decide as Hk.
    + intros Hin Hg. apply elem_of_cons in Hin as [Heq|Hin].
      * simplify_eq. apply elem_of_app in Hg as [Hg|Hg].
        -- left. exists files. split; [apply list_elem_of_here|done].
        -- apply list_elem_of_singleton in Hg. by right.
      * left. exists files'. split; [by apply list_elem_of_further|done].
    + intros Hin Hg. apply elem_of_cons in Hin as [Heq|Hin].
      * simplify_eq. left. exists files. split; [apply list_elem_of_here|done].
      * destruct (IH Hin Hg) as [(files0 & H0 & Hg0)|?]; [|by right].
        left. exists files0. split; [by apply list_elem_of_further|done].
Qed.

(** The first loop files every item under its own category. *)
Lemma collect_sorted fs (P : path → Prop) (items : list path) : ∀ d skipped,
  (∀ c files g, (c, files) ∈ d → g ∈ files → get_file_category g = Some c ∧ P g) →
  (∀ g, g ∈ items → P g) →
  ∀ c files g, (c, files) ∈ (collect fs items d skipped).1 → g ∈ files →
    get_file_category g = Some c ∧ P g.
Proof.
  induction items as [|x items IH]; intros d skipped Hd HP; [done|].
  assert (∀ g, g ∈ items → P g) as HP'.
  { intros g Hg. apply HP. by apply list_elem_of_further. }
  cbn [collect]. destruct (is_file fs x); [|by apply IH].
  destruct (should_skip_file fs x); [by apply IH|].
  destruct (get_file_category x) as [[|a c]|] eqn:Ec; [by apply IH| |by apply IH].
  apply IH; [|done]. intros c' files' g Hin Hg.
  destruct (dict_append_elem _ _ _ _ _ _ Hin Hg) as [(files0 & H0 & Hg0)|[-> ->]].
  - by eapply Hd.
  - split; [done|]. apply HP. apply list_elem_of_here.
Qed.

(** X19. Where the organized files go. When [organize_folder] returns
    [True], every regular file of the listing that is not skipped and has
    a category is afterwards, with its data, either still where it was
    (its move failed) or in the folder of its category under its own name
    or a numbered one. *)
Theorem organized_file_is_in_its_category_folder (fs : filesystem)
    (folder_path : path) (fs' : filesystem) (counts : nat * nat)
    (item : path) (m : file_data) (category : string) :
  organize_folder fs folder_path = Some (fs', true, counts) →
  (∀ i, i ∈ iterdir → parent i = folder_path ∧ i ≠ []) →
  item ∈ iterdir →
  stat fs item = Some (File m) →
  should_skip_file fs item = false →
  get_file_category item = Some category →
  stat fs' item = Some (File m)
  ∨ ∃ k, stat fs' (probed (folder_path </> category) item k) = Some (File m).
Proof.
  intros H Hdir Hitem Hs Hskip Hcat.
  pose proof (collect_perm fs iterdir [] []) as Hp.
  cbn [fmap list_fmap concat app] in Hp.
  assert (item ∈ concat (collect fs iterdir [] []).1.*2) as Hin.
  { rewrite Hp. apply list_elem_of_filter. split; [|done].
    split; [|split; [done|by eexists]]. unfold is_file. by rewrite Hs. }
  apply elem_of_concat in Hin as (files & Hf & Hfiles).
  apply list_elem_of_fmap in Hfiles as ([c files'] & -> & Hc).
  pose proof (collect_sorted fs (λ g, length g = S (length folder_path))
                iterdir [] []) as Hsorted.
  assert (∀ c files g, (c, files) ∈ (collect fs iterdir [] []).1 → g ∈ files →
            get_file_category g = Some c ∧ length g = S (length folder_path))
    as Hd.
  { apply Hsorted.
    - intros ??? Hnil. by apply elem_of_nil in Hnil.
    - intros g Hg. destruct (Hdir g Hg) as [<- Hne]. by destruct g. }
  destruct (Hd c files' item Hc Hf) as [Hcat' _].
  assert (c = category) as -> by congruence.
  apply organize_folder_inv in H
    as [(_ & _ & Hnil)|(_ & fs1 & ok1 & Hcf & [(_ & ? & _)|(_ & _ & Hm)])];
    [|done|].
  - rewrite Hnil in Hc by done. by apply elem_of_nil in Hc.
  - eapply move_all_lands; [done| |done..|].
    + intros c' fl g Hc' Hg. destruct (Hd c' fl g Hc' Hg) as [? ->]. done.
    + by eapply create_category_folders_keeps.
Qed.

End Folders.

(** ** Replacing in names and in text *)

Section ReplaceFacts.

Context {A : Type} `{EqDecision A}.

Implicit Types (s old new : list A).

Lemma replace_go_skip old new s : ∀ skip,
  PyStr.replace_go old new skip s = PyStr.replace_go old new 0 (drop skip s).
Proof.
  induction s as [|c s IH]; intros [|skip]; try reflexivity.
  simpl. apply IH.
Qed.

(** One step of the scan, for a non-empty [old]. *)
Lemma replace_go_step old new (c : A) s :
  old ≠ [] →
  PyStr.replace_go old new 0 (c :: s) =
  if PyStr.prefix_of old (c :: s)
  then new ++ PyStr.replace_go old new 0 (drop (length old) (c :: s))
  else c :: PyStr.replace_go old new 0 s.
Proof.
  intros Hold. cbn [PyStr.replace_go].
  destruct (PyStr.prefix_of old (c :: s)); [|reflexivity].
  rewrite replace_go_skip. destruct old as [|a old]; [done|].
  simpl. by rewrite Nat.sub_0_r.
Qed.

Lemma replace_go_length old new (n : nat) : ∀ s,
  old ≠ [] → length s ≤ n →
  (length old ≤ length new → length s ≤ length (PyStr.replace_go old new 0 s))
  ∧ (length new ≤ length old → length (PyStr.replace_go old new 0 s) ≤ length s).
Proof.
  induction n as [|n IH]; intros s Hold Hn.
  { destruct s; [simpl; lia|simpl in Hn; lia]. }
  destruct s as [|c s]; [simpl; lia|].
  rewrite replace_go_step by done.
  destruct (PyStr.prefix_of old (c :: s)) eqn:Ep.
  - apply prefix_of_spec in Ep as [rest Hrest]. rewrite Hrest.
    rewrite drop_app_length, !length_app.
    assert (length rest ≤ n) as Hr.
    { apply (f_equal length) in Hrest. rewrite length_app in Hrest.
      simpl in Hrest, Hn. destruct old; [done|]. simpl in Hrest. lia. }
    destruct (IH rest Hold Hr). lia.
  - simpl in Hn. destruct (IH s Hold) as [H1 H2]; [lia|]. simpl. lia.
Qed.

(** Replacing something that occurs by something else changes the
    string. *)
Lemma replace_go_fixed old new (n : nat) : ∀ s,
  old ≠ [] → length s ≤ n →
  PyStr.replace_go old new 0 s = s → PyStr.contains old s = true → new = old.
Proof.
  induction n as [|n IH]; intros s Hold Hn Hfix Hc.
  { destruct s; [|simpl in Hn; lia]. simpl in Hc. by destruct old. }
  destruct s as [|c s]; [simpl in Hc; by destruct old|].
  rewrite replace_go_step in Hfix by done.
  destruct (PyStr.prefix_of old (c :: s)) eqn:Ep.
  - apply prefix_of_spec in Ep as [rest Hrest]. rewrite Hrest in Hfix.
    rewrite drop_app_length in Hfix.
    assert (length rest ≤ n) as Hr.
    { apply (f_equal length) in Hrest. rewrite length_app in Hrest.
      simpl in Hrest, Hn. destruct old; [done|]. simpl in Hrest. lia. }
    destruct (replace_go_length old new n rest Hold Hr) as [H1 H2].
    pose proof (f_equal length Hfix) as Hlen. rewrite !length_app in Hlen.
    assert (length new = length old) as Heq by lia.
    by apply app_inj_1 in Hfix as [? _].
  - injection Hfix as Hfix. simpl in Hc. rewrite Ep in Hc. simpl in Hc, Hn.
    apply (IH s); [done|lia|done..].
Qed.

Lemma replace_go_same old (n : nat) : ∀ s,
  old ≠ [] → length s ≤ n → PyStr.replace_go old old 0 s = s.
Proof.
  induction n as [|n IH]; intros s Hold Hn.
  { by destruct s; [|simpl in Hn; lia]. }
  destruct s as [|c s]; [done|].
  rewrite replace_go_step by done.
  destruct (PyStr.prefix_of old (c :: s)) eqn:Ep.
  - apply prefix_of_spec in Ep as [rest Hrest]. rewrite Hrest.
    rewrite drop_app_length. f_equal. apply IH; [done|].
    apply (f_equal length) in Hrest. rewrite length_app in Hrest.
    simpl in Hrest, Hn. destruct old; [done|]. simpl in Hrest. lia.
  - f_equal. apply IH; [done|]. simpl in Hn. lia.
Qed.

Lemma intersperse_length new s :
  length (PyStr.intersperse new s) = length s + S (length s) * length new.
Proof.
  induction s as [|c s IH]; simpl; [lia|].
  rewrite length_app. simpl. rewrite IH. lia.
Qed.

Lemma intersperse_nil s : PyStr.intersperse [] s = s.
Proof. induction s as [|c s IH]; simpl; congruence. Qed.

Lemma contains_nil s : PyStr.contains [] s = true.
Proof. by destruct s. Qed.

(** [replace] leaves a string as it is exactly when there is nothing to
    replace or nothing would change. *)
Lemma replace_fixed old new s :
  PyStr.replace old new s = s ↔ PyStr.contains old s = false ∨ old = new.
Proof.
  destruct old as [|a old].
  - rewrite contains_nil. simpl. split.
    + intros H. right. apply (f_equal length) in H.
      rewrite intersperse_length in H. destruct new; [done|]. simpl in H. lia.
    + intros [?|<-]; [done|]. apply intersperse_nil.
  - split.
    + intros H. destruct (PyStr.contains (a :: old) s) eqn:Ec; [right|by left].
      symmetry. by eapply (replace_go_fixed _ _ (length s)).
    + intros [H|<-]; [by apply replace_absent|].
      by apply (replace_go_same _ (length s)).
Qed.

(** X16. A name is renamed exactly when it contains the search string,
    the replacement differs from the search string, and the new name is
    not empty; the new name then is the old one with the replacement
    made. In particular replacing a string by itself renames nothing. *)
Theorem rename_rule (old_name search_str replace_str new_name : list A) :
  Renaming.rename_target old_name search_str replace_str = Some new_name ↔
  PyStr.contains search_str old_name = true
  ∧ search_str ≠ replace_str
  ∧ new_name = PyStr.replace search_str replace_str old_name
  ∧ new_name ≠ [].
Proof.
  unfold Renaming.rename_target, Renaming.get_new_name.
  destruct (PyStr.contains search_str old_name) eqn:Ec; [|naive_solver].
  pose proof (replace_fixed search_str replace_str old_name) as Hfix.
  rewrite Ec in Hfix.
  destruct (decide (PyStr.replace search_str replace_str old_name = []))
    as [Hnil|Hnil].
  { rewrite bool_decide_eq_false_2 by naive_solver. cbn [andb].
    split; [done|]. intros (_ & _ & -> & ?). done. }
  rewrite bool_decide_eq_true_2 by done. cbn [andb].
  case_bool_decide as Hne.
  - split; [|naive_solver]. intros ?. simplify_eq.
    repeat split; [|done..]. intros ->. apply Hne. apply Hfix. by right.
  - split; [done|]. intros (_ & Hsr & _). destruct Hsr.
    apply Hfix in Hne as [?|?]; done.
Qed.

End ReplaceFacts.

Section CarriageReturns.

Variable guess_type : string → option string.
Variable decode_utf8 : list Byte.byte → option (list N).
Variable encode_utf8 : list N → option (list Byte.byte).

(** Text read with universal newlines holds no carriage return. *)
Lemma universal_newlines_no_cr (n : nat) : ∀ s,
  length s ≤ n → 13%N ∉ StringReplacer.universal_newlines s.
Proof.
  induction n as [|n IH]; intros s Hn.
  { destruct s; [apply not_elem_of_nil|simpl in Hn; lia]. }
  destruct s as [|c s]; [apply not_elem_of_nil|]. simpl in Hn.
  cbn [StringReplacer.universal_newlines]. case_bool_decide as Hc.
  - destruct s as [|c' s].
    + intros H%list_elem_of_singleton. done.
    + simpl in Hn. case_bool_decide; apply not_elem_of_cons;
        (split; [done|]); apply IH; simpl; lia.
  - apply not_elem_of_cons. split; [congruence|]. apply IH. lia.
Qed.

(** X17. A search string that holds a carriage return never matches: the
    content is read in text mode, which turns every [\r\n] and [\r] into
    [\n], so such a search modifies no file whatever it contains. *)
Theorem carriage_return_never_matches (f : StringReplacer.text_file)
    (search_str replace_str : list N) :
  13%N ∈ search_str →
  StringReplacer.replace_in_file_content guess_type decode_utf8 encode_utf8
    f search_str replace_str = (f, false).
Proof.
  intros Hcr. unfold StringReplacer.replace_in_file_content.
  destruct (negb _); [done|].
  destruct (StringReplacer.read_text decode_utf8 f) as [content|] eqn:Er;
    [|done].
  assert (PyStr.contains search_str content = false) as ->; [|done].
  destruct (PyStr.contains search_str content) eqn:Ec; [|done].
  apply contains_spec in Ec as (a & b & ->).
  unfold StringReplacer.read_text in Er. destruct (StringReplacer.readable f);
    [|done].
  destruct (decode_utf8 _) as [raw|]; [|done]. simpl in Er.
  injection Er as Er.
  pose proof (universal_newlines_no_cr (length raw) raw (le_n _)) as Hno.
  rewrite Er in Hno. destruct Hno.
  apply elem_of_app. right. apply elem_of_app. by left.
Qed.

End CarriageReturns.

(** ** The dated directory of a day *)

Section Days.

Lemma zfill_inj (w : nat) (a b : N) :
  PyStr.zfill w (PyStr.str_of_N a) = PyStr.zfill w (PyStr.str_of_N b) → a = b.
Proof.
  intros H. apply (f_equal PyStr.int_of_digits) in H.
  rewrite !int_of_zfill in H. by injection H.
Qed.

(** X18. Two dates get the same directory under a root exactly when they
    are the same day: the time of day plays no part, and different days
    never share a directory. *)
Theorem same_day_same_directory (base_dir : path) (d d' : datetime) :
  date_path base_dir d = date_path base_dir d' ↔
  year d = year d' ∧ month d = month d' ∧ day d = day d'.
Proof.
  unfold date_path, joinpath, strftime_Y, strftime_m, strftime_d. split.
  - intros H. injection H as Hd Hm Hy.
    apply zfill_inj in Hd, Hm, Hy. done.
  - intros (-> & -> & ->). reflexivity.
Qed.

End Days.

(** ** The further properties on sample files *)


Lemma dry_run_changes_no_file_witness :
  ∃ fs' res,
    organize_photos Samples.strptime Samples.TAGS Samples.waiting ["a"]
      ["out"] false true Samples.three_photos = Some (fs', res)
    ∧ stat fs' ["photo.jpg"; "a"] = stat Samples.three_photos ["photo.jpg"; "a"]
    ∧ stat Samples.three_photos ["07"; "03"; "2024"; "out"] = None
    ∧ stat fs' ["07"; "03"; "2024"; "out"] = Some Dir.
Proof.
  destruct (organize_photos Samples.strptime Samples.TAGS Samples.waiting ["a"]
              ["out"] false true Samples.three_photos)
    as [[fs' res]|] eqn:E; [|vm_compute in E; discriminate].
  exists fs', res. split; [reflexivity|].
  pose proof (dry_run_changes_no_file Samples.strptime Samples.TAGS
                _ _ _ _ _ _ _ E) as H.
  split; [|split].
  - destruct (H ["photo.jpg"; "a"]) as [?|[Hn _]]; [done|].
    vm_compute in Hn. discriminate.
  - vm_compute. reflexivity.
  - destruct (H ["07"; "03"; "2024"; "out"]) as [Heq|[_ ?]]; [|done].
    apply (f_equal (λ o, fst <$> o)) in E. vm_compute in E.
    injection E as <-. vm_compute. reflexivity.
Defined.

Lemma copy_mode_keeps_everything_witness :
  ∃ fs' res,
    organize_photos Samples.strptime Samples.TAGS Samples.waiting ["a"]
      ["root"] true false Samples.three_photos = Some (fs', res)
    ∧ stat fs' ["photo.jpg"; "a"] = Some (File Samples.march).
Proof.
  destruct (organize_photos Samples.strptime Samples.TAGS Samples.waiting ["a"]
              ["root"] true false Samples.three_photos)
    as [[fs' res]|] eqn:E; [|vm_compute in E; discriminate].
  exists fs', res. split; [reflexivity|].
  apply (copy_mode_keeps_everything Samples.strptime Samples.TAGS
           _ _ _ _ _ _ _ _ _ E).
  vm_compute. reflexivity.
Defined.

Lemma no_photo_is_lost_witness :
  ∃ fs' res q',
    organize_photos Samples.strptime Samples.TAGS Samples.waiting ["a"]
      ["root"] false false Samples.three_photos = Some (fs', res)
    ∧ stat fs' q' = Some (File Samples.march).
Proof.
  destruct (organize_photos Samples.strptime Samples.TAGS Samples.waiting ["a"]
              ["root"] false false Samples.three_photos)
    as [[fs' res]|] eqn:E; [|vm_compute in E; discriminate].
  pose proof (proj1 (no_photo_is_lost Samples.strptime Samples.TAGS
                       _ _ _ _ _ _ _ _ E)) as H.
  assert (stat Samples.three_photos ["photo.jpg"; "a"] =
          Some (File Samples.march)) as H0 by (vm_compute; reflexivity).
  destruct (H _ _ H0) as [q' Hq'].
  exists fs', res, q'. split; [reflexivity|exact Hq'].
Defined.

Lemma processed_photo_is_in_its_date_folder_witness :
  ∃ s' d src k,
    process Samples.strptime Samples.TAGS false false ["root"]
      (Samples.three_photos, stats0) ["photo.jpg"; "a"] = Some s'
    ∧ get_photo_date Samples.strptime Samples.TAGS Samples.three_photos
        ["photo.jpg"; "a"] = Ok (d, src)
    ∧ stat s'.1 (probed (date_path ["root"] d) ["photo.jpg"; "a"] k) =
      Some (File Samples.march)
    ∧ stat s'.1 ["photo.jpg"; "a"] = None.
Proof.
  destruct (process Samples.strptime Samples.TAGS false false ["root"]
              (Samples.three_photos, stats0) ["photo.jpg"; "a"])
    as [s'|] eqn:E; [|vm_compute in E; discriminate].
  assert (stat (Samples.three_photos, stats0).1 ["photo.jpg"; "a"] =
          Some (File Samples.march)) as H0 by (vm_compute; reflexivity).
  assert (processed s'.2 = S (processed (Samples.three_photos, stats0).2))
    as H1.
  { pose proof (f_equal (λ o, (processed ∘ snd) <$> o) E) as E'.
    vm_compute in E'. injection E' as E'. symmetry. exact E'. }
  destruct (processed_photo_is_in_its_date_folder Samples.strptime
              Samples.TAGS _ _ _ _ _ _ E H0 H1)
    as (d & src & k & Hd & _ & Hnew & Hold).
  exists s', d, src, k. repeat split; assumption.
Defined.

Lemma failed_photo_stays_witness :
  ∃ s',
    process Samples.strptime Samples.TAGS false false ["out"]
      (Samples.file_in_the_way, stats0) ["IMG_01.JPG"; "in"] = Some s'
    ∧ stat s'.1 ["IMG_01.JPG"; "in"] = Some (File Samples.shot).
Proof.
  destruct (process Samples.strptime Samples.TAGS false false ["out"]
              (Samples.file_in_the_way, stats0) ["IMG_01.JPG"; "in"])
    as [s'|] eqn:E; [|vm_compute in E; discriminate].
  assert (errors s'.2 = S (errors (Samples.file_in_the_way, stats0).2)) as He.
  { pose proof (f_equal (λ o, (errors ∘ snd) <$> o) E) as E'.
    vm_compute in E'. injection E' as E'. symmetry. exact E'. }
  assert (stat (Samples.file_in_the_way, stats0).1 ["IMG_01.JPG"; "in"] =
          Some (File Samples.shot)) as H0 by (vm_compute; reflexivity).
  exists s'. split; [reflexivity|].
  exact (failed_photo_stays Samples.strptime Samples.TAGS _ _ _ _ _ _ _ _
           E He H0).
Defined.

Lemma unparseable_field_ends_the_method_witness :
  get_exif_date Samples.strptime Samples.TAGS
    (Samples.with_file Samples.empty_fs ["scan.jpg"; "in"] Samples.unreadable)
    ["scan.jpg"; "in"] = None.
Proof.
  assert (stat (Samples.with_file Samples.empty_fs ["scan.jpg"; "in"]
                  Samples.unreadable) ["scan.jpg"; "in"] =
          Some (File Samples.unreadable)) as Hs by (vm_compute; reflexivity).
  refine (proj1 (unparseable_field_ends_the_method Samples.strptime
                   Samples.TAGS _ _ _ Hs)
            [] 36867%Z "0000:00:00 00:00:00" [] _ _ _ _).
  - reflexivity.
  - intros i v Hin. apply elem_of_nil in Hin. destruct Hin.
  - left. reflexivity.
  - vm_compute. reflexivity.
Defined.


Lemma create_category_folders_spec_witness :
  ∃ fs',
    Organizer.create_category_folders Samples.downloads ["dl"]
      ["Images"; "Documents"] = (fs', true)
    ∧ (is_dir fs' (["dl"] </> "Images") = true
       ∨ is_file Samples.downloads (["dl"] </> "Images") = true).
Proof.
  destruct (Organizer.create_category_folders Samples.downloads ["dl"]
              ["Images"; "Documents"]) as [fs' ok] eqn:E.
  assert (ok = true) as Hok.
  { pose proof (f_equal snd E) as E'. vm_compute in E'. symmetry. exact E'. }
  subst ok. exists fs'. split; [reflexivity|].
  destruct (create_category_folders_spec _ _ _ _ _ E) as (_ & Ht & _).
  apply (Ht eq_refl). apply list_elem_of_here.
Defined.

Lemma organize_folder_loses_nothing_witness :
  ∃ fs' ok counts q',
    Organizer.organize_folder Samples.listing id "y" Samples.downloads ["dl"] =
      Some (fs', ok, counts)
    ∧ stat fs' q' = Some (File Samples.shot).
Proof.
  destruct (Organizer.organize_folder Samples.listing id "y" Samples.downloads
              ["dl"]) as [[[fs' ok] counts]|] eqn:E;
    [|vm_compute in E; discriminate].
  assert (stat Samples.downloads ["Holiday.JPG"; "dl"] =
          Some (File Samples.shot)) as H0 by (vm_compute; reflexivity).
  destruct (proj1 (organize_folder_loses_nothing _ _ _ _ _ _ _ _ E) _ _ H0)
    as [q' Hq'].
  exists fs', ok, counts, q'. split; [reflexivity|exact Hq'].
Defined.

Lemma organize_folder_counts_witness :
  ∃ fs' moved_count failed_count,
    Organizer.organize_folder Samples.listing id "y" Samples.downloads ["dl"] =
      Some (fs', true, (moved_count, failed_count))
    ∧ moved_count + failed_count = 3.
Proof.
  destruct (Organizer.organize_folder Samples.listing id "y" Samples.downloads
              ["dl"]) as [[[fs' []] [moved failed]]|] eqn:E;
    try (vm_compute in E; discriminate).
  exists fs', moved, failed. split; [reflexivity|].
  rewrite (organize_folder_counts _ _ _ _ _ _ _ _ E).
  vm_compute. reflexivity.
Defined.

Lemma organize_folder_touches_only_its_files_witness :
  ∃ fs' ok counts,
    Organizer.organize_folder Samples.listing id "y" Samples.downloads ["dl"] =
      Some (fs', ok, counts)
    ∧ stat fs' [".hidden.txt"; "dl"] =
      Some (File (Samples.plain (Samples.date 2024 1 2 3 4 6)))
    ∧ stat fs' ["weird.xyz"; "dl"] =
      Some (File (Samples.plain (Samples.date 2024 1 2 3 4 7))).
Proof.
  destruct (Organizer.organize_folder Samples.listing id "y" Samples.downloads
              ["dl"]) as [[[fs' ok] counts]|] eqn:E;
    [|vm_compute in E; discriminate].
  exists fs', ok, counts. split; [reflexivity|]. split.
  - apply (organize_folder_touches_only_its_files _ _ _ _ _ _ _ _ _ _ E).
    + vm_compute. reflexivity.
    + right. intros [(_ & Hs & _) _]%list_elem_of_filter.
      vm_compute in Hs. discriminate.
  - apply (organize_folder_touches_only_its_files _ _ _ _ _ _ _ _ _ _ E).
    + vm_compute. reflexivity.
    + right. intros [(_ & _ & Hc) _]%list_elem_of_filter.
      vm_compute in Hc. destruct Hc as [c Hc]. discriminate.
Defined.

Lemma organized_file_is_in_its_category_folder_witness :
  ∃ fs' counts,
    Organizer.organize_folder Samples.listing id "y" Samples.downloads ["dl"] =
      Some (fs', true, counts)
    ∧ (stat fs' ["backup.tar.gz"; "dl"] =
         Some (File (Samples.plain (Samples.date 2024 1 2 3 4 8)))
       ∨ ∃ k, stat fs' (probed ["Archives"; "dl"] ["backup.tar.gz"; "dl"] k) =
                Some (File (Samples.plain (Samples.date 2024 1 2 3 4 8)))).
Proof.
  destruct (Organizer.organize_folder Samples.listing id "y" Samples.downloads
              ["dl"]) as [[[fs' []] counts]|] eqn:E;
    try (vm_compute in E; discriminate).
  exists fs', counts. split; [reflexivity|].
  apply (organized_file_is_in_its_category_folder _ _ _ _ _ _ _ _ _ _ E).
  - intros i Hi. unfold Samples.listing in Hi.
    repeat (apply elem_of_cons in Hi; destruct Hi as [->|Hi];
            [split; [reflexivity|discriminate]|]).
    apply elem_of_nil in Hi. destruct Hi.
  - unfold Samples.listing. do 4 apply list_elem_of_further.
    apply list_elem_of_here.
  - vm_compute. reflexivity.
  - vm_compute. reflexivity.
  - vm_compute. reflexivity.
Defined.

Lemma carriage_return_never_matches_witness :
  StringReplacer.replace_in_file_content Samples.guess_type
    Samples.decode_utf8 Samples.encode_utf8
    (Samples.text_file "notes.txt" "one two") [101; 13]%N [32]%N =
  (Samples.text_file "notes.txt" "one two", false).
Proof.
  apply carriage_return_never_matches.
  apply list_elem_of_further, list_elem_of_here.
Defined.
